(** * Table reconstruction from a Power BI grid (src/main.py)

    A shallow embedding of [extract_table_data_from_powerbi_html]: the
    attribute stripping pass, the [find_all] role filter and the single-pass
    state machine that rebuilds tables from a flat stream of role-tagged
    elements; with it its debug output and the page event handlers of the
    same module, the CSV rendering of the result (src/mcp_server.py), and
    the intent detection and retry wrapper of the agent that asks for it
    (src/ottawa_public_health_agent/agent.py). *)

From stdpp Require Import gmap strings list fin_maps pretty.

Open Scope string_scope.
Open Scope list_scope.

(** ** Exceptions and the result monad *)

(** The only exception the function can raise by itself is the [KeyError] of
    a dictionary subscript [attrs[key]]. *)
Inductive exn : Type :=
| KeyError (key : string).

Inductive result (A : Type) : Type :=
| Ok (a : A)
| Raise (e : exn).
Arguments Ok {A} a.
Arguments Raise {A} e.

Global Instance result_ret : MRet result := λ A a, Ok a.
Global Instance result_bind : MBind result := λ A B k r,
  match r with
  | Ok a => k a
  | Raise e => Raise e
  end.

(** ** Elements *)

(** A [bs4.element.Tag] as far as the function looks at it: the attribute
    dictionary [tag.attrs] and the value of [tag.get_text(strip=True)].
    [role] and [column-index] are not among bs4's multi-valued attributes, so
    their values are plain strings. *)
Record Tag : Type := mkTag {
  attrs : gmap string string;
  text : string
}.

(** [d[key]] on a Python dict. *)
Definition subscript (d : gmap string string) (key : string) : result string :=
  match d !! key with
  | Some v => Ok v
  | None => Raise (KeyError key)
  end.

(** [needle in hay] on Python strings: substring test. *)
Fixpoint contains (needle hay : string) : bool :=
  String.prefix needle hay ||
  match hay with
  | EmptyString => false
  | String _ hay' => contains needle hay'
  end.

(** ** Preprocessing: attribute stripping and the role filter *)

Definition REMOVE_ATTRIBUTES : list string :=
  ["style"; "class"; "aria"; "tabindex"; "aria-colindex"].

(** [{key: value for key, value in tag.attrs.items()
      if key not in REMOVE_ATTRIBUTES}] *)
Definition strip_attrs (tag : Tag) : Tag :=
  {| attrs := filter (λ kv : string * string, kv.1 ∉ REMOVE_ATTRIBUTES) (attrs tag);
     text := text tag |}.

(** The loop over [soup.descendants]: every tag gets its attributes
    stripped. The document is the list of its tags in document order. *)
Definition strip_all (soup : list Tag) : list Tag := strip_attrs <$> soup.

Definition ROLES : list string := ["columnheader"; "rowheader"; "gridcell"].

(** [soup.find_all(role=[...])]: the tags whose [role] attribute is exactly
    one of the listed strings, in document order. *)
Definition has_role (tag : Tag) : bool :=
  match attrs tag !! "role" with
  | Some r => bool_decide (r ∈ ROLES)
  | None => false
  end.

Definition find_all (soup : list Tag) : list Tag := filter (λ t, has_role t = true) soup.

(** [pres]: the stripped document filtered by role. *)
Definition pres_items (soup : list Tag) : list Tag := find_all (strip_all soup).

(** The role of an element that [find_all] lets through. *)
Definition is_columnheader (t : Tag) : Prop := attrs t !! "role" = Some "columnheader".
Definition is_rowheader (t : Tag) : Prop := attrs t !! "role" = Some "rowheader".
Definition is_gridcell (t : Tag) : Prop := attrs t !! "role" = Some "gridcell".

(** ** The reconstruction state machine *)

Section Reconstruct.
(** The loop is written over the cell payload [get_text pres_item]; the
    program instantiates it with the element text, and the provenance
    arguments below with the element itself. *)
Context {A : Type} (get_text : Tag → A).

Record State : Type := mkState {
  column_headers : list A;
  current_row : list A;
  current_table : list (list A);
  datasets : list (list (list A))
}.

Definition init : State :=
  {| column_headers := []; current_row := []; current_table := []; datasets := [] |}.

(** [x != []] *)
Definition nonempty {B : Type} (l : list B) : bool :=
  match l with [] => false | _ :: _ => true end.

(** [current_table.append(current_row); current_row = []] *)
Definition flush_row (s : State) : State :=
  {| column_headers := column_headers s;
     current_row := [];
     current_table := current_table s ++ [current_row s];
     datasets := datasets s |}.

(** [current_table.append(column_headers); column_headers = []] *)
Definition flush_headers (s : State) : State :=
  {| column_headers := [];
     current_row := current_row s;
     current_table := current_table s ++ [column_headers s];
     datasets := datasets s |}.

(** [datasets.append(current_table); current_table = list()] *)
Definition close_table (s : State) : State :=
  {| column_headers := column_headers s;
     current_row := current_row s;
     current_table := [];
     datasets := datasets s ++ [current_table s] |}.

Definition push_header (c : A) (s : State) : State :=
  {| column_headers := column_headers s ++ [c];
     current_row := current_row s;
     current_table := current_table s;
     datasets := datasets s |}.

Definition push_cell (c : A) (s : State) : State :=
  {| column_headers := column_headers s;
     current_row := current_row s ++ [c];
     current_table := current_table s;
     datasets := datasets s |}.

(** Body of [if 'columnheader' in pres_item.attrs['role']:]. *)
Definition on_columnheader (pres_item : Tag) (s : State) : State :=
  let s := if nonempty (current_row s) then flush_row s else s in
  let s := if negb (nonempty (column_headers s)) && nonempty (current_table s)
           then close_table s else s in
  push_header (get_text pres_item) s.

(** Body of [if 'rowheader' in pres_item.attrs['role']:]. *)
Definition on_rowheader (pres_item : Tag) (s : State) : State :=
  let s := if nonempty (current_row s) then flush_row s else s in
  let s := if nonempty (column_headers s) then flush_headers s else s in
  push_cell (get_text pres_item) s.

(** [len(current_row) > 1 and pres_item.attrs['column-index'] == '0']:
    the subscript is only evaluated when the left operand holds. *)
Definition row_start (pres_item : Tag) (s : State) : result bool :=
  if bool_decide (1 < length (current_row s)) then
    idx ← subscript (attrs pres_item) "column-index";
    Ok (String.eqb idx "0")
  else Ok false.

(** Body of [if 'gridcell' in pres_item.attrs['role']:]. *)
Definition on_gridcell (pres_item : Tag) (s : State) : result State :=
  let s := if nonempty (column_headers s) then flush_headers s else s in
  b ← row_start pres_item s;
  let s := if b : bool then flush_row s else s in
  Ok (push_cell (get_text pres_item) s).

(** One iteration of [for pres_item in pres:]: three independent [if]s,
    each looking the role up again. *)
Definition step (pres_item : Tag) (s : State) : result State :=
  role ← subscript (attrs pres_item) "role";
  let s := if contains "columnheader" role then on_columnheader pres_item s else s in
  role ← subscript (attrs pres_item) "role";
  let s := if contains "rowheader" role then on_rowheader pres_item s else s in
  role ← subscript (attrs pres_item) "role";
  if contains "gridcell" role then on_gridcell pres_item s else Ok s.

Fixpoint loop (pres : list Tag) (s : State) : result State :=
  match pres with
  | [] => Ok s
  | pres_item :: pres' => s' ← step pres_item s; loop pres' s'
  end.

(** The code after the loop: record the last row, if any, and its table. *)
Definition finalize (s : State) : list (list (list A)) :=
  if nonempty (current_row s)
  then datasets s ++ [current_table s ++ [current_row s]]
  else datasets s.

(** The function from the parsed document on. *)
Definition extract_with (soup : list Tag) : result (list (list (list A))) :=
  let pres := pres_items soup in
  s ← loop pres init;
  Ok (finalize s).
End Reconstruct.

Arguments State A : clear implicits.
Arguments init {A}.

(** [extract_table_data_from_powerbi_html], after [BeautifulSoup] has parsed
    the markup into [soup]. *)
Definition extract_table_data_from_powerbi_html (soup : list Tag)
  : result (list (list (list string))) :=
  extract_with text soup.

(** The three kinds of grid item, as elements carrying only what the loop
    reads. *)
Definition ColumnHeader (h : string) : Tag :=
  mkTag {[ "role" := "columnheader" ]} h.
Definition RowHeader (h : string) : Tag :=
  mkTag {[ "role" := "rowheader" ]} h.
Definition GridCell (idx : option string) (c : string) : Tag :=
  mkTag (match idx with
         | Some i => <[ "column-index" := i ]> {[ "role" := "gridcell" ]}
         | None => {[ "role" := "gridcell" ]}
         end) c.

(** ** Vocabulary of the properties *)

(** The payload-independent part of the pass: mapping the cells of a state
    and of a dataset. *)
Global Instance result_fmap : FMap result := λ A B f r,
  match r with
  | Ok a => Ok (f a)
  | Raise e => Raise e
  end.

Definition map_table {A B : Type} (f : A → B) (tb : list (list A)) : list (list B) :=
  fmap (M:=list) f <$> tb.

Definition map_dataset {A B : Type} (f : A → B) (ds : list (list (list A)))
  : list (list (list B)) :=
  map_table f <$> ds.

Definition map_state {A B : Type} (f : A → B) (s : State A) : State B :=
  {| column_headers := f <$> column_headers s;
     current_row := f <$> current_row s;
     current_table := map_table f (current_table s);
     datasets := map_dataset f (datasets s) |}.

(** The same pass recording the elements themselves instead of their text:
    every output cell is the element it came from. *)
Definition extract_traced (soup : list Tag) : result (list (list (list Tag))) :=
  extract_with (λ t, t) soup.

Section Invariants.
Context {A : Type} (get_text : Tag → A).

(** The state with which the [gridcell] branch reaches its row-start
    test: pending headers already recorded. *)
Definition headers_flushed (s : State A) : State A :=
  if nonempty (column_headers s) then flush_headers s else s.

(** The loop invariant: the two accumulators are never pending together, a
    table under construction always has a pending row behind it, the cells
    recorded so far are the payloads of the elements seen so far in order,
    and nothing empty has been recorded. *)
Record Invariant (seen : list Tag) (s : State A) : Prop := {
  inv_exclusive : column_headers s = [] ∨ current_row s = [];
  inv_table : current_row s = [] → current_table s = [];
  inv_cells :
    concat (concat (datasets s)) ++ concat (current_table s)
      ++ column_headers s ++ current_row s = get_text <$> seen;
  inv_tables_nonempty : Forall (λ tbl, tbl ≠ []) (datasets s);
  inv_rows_nonempty :
    Forall (Forall (λ row, row ≠ [])) (datasets s) ∧
    Forall (λ row, row ≠ []) (current_table s)
}.
End Invariants.

(** A row in which a [rowheader] element can only sit in cell 0. *)
Definition row_header_first (row : list Tag) : Prop :=
  ∀ i t, row !! i = Some t → is_rowheader t → i = 0.

Record Traced (s : State Tag) : Prop := {
  traced_headers : Forall (λ t, ¬ is_rowheader t) (column_headers s);
  traced_row : row_header_first (current_row s);
  traced_table : Forall row_header_first (current_table s);
  traced_datasets : Forall (Forall row_header_first) (datasets s)
}.

(** A cell that continues the pending row when that row already holds [n]
    cells: past the second cell its index must be there and differ from
    ['0']. *)
Definition continues_row (n : nat) (t : Tag) : Prop :=
  is_gridcell t ∧
  (1 < n → ∃ idx, attrs t !! "column-index" = Some idx ∧ idx ≠ "0").

Fixpoint one_row_from (n : nat) (cells : list Tag) : Prop :=
  match cells with
  | [] => True
  | t :: cells' => continues_row n t ∧ one_row_from (S n) cells'
  end.

Definition header_group (hs : list Tag) : Prop :=
  hs ≠ [] ∧ Forall is_columnheader hs.

Definition one_row (cells : list Tag) : Prop :=
  cells ≠ [] ∧ one_row_from 0 cells.

(** Every data cell carries a column index. *)
Definition well_formed (soup : list Tag) : Prop :=
  ∀ t, t ∈ soup → is_gridcell t → is_Some (attrs t !! "column-index").

(** What the loop reads from an element. *)
Record GridItem : Type := mkGridItem {
  role : option string;
  item_text : string;
  columnIndex : option string
}.

Definition grid_item (t : Tag) : GridItem :=
  {| role := attrs t !! "role";
     item_text := text t;
     columnIndex := attrs t !! "column-index" |}.

(** The grid items of a document: its role-filtered elements as the loop
    sees them. *)
Definition grid_items (soup : list Tag) : list GridItem :=
  grid_item <$> find_all soup.

(** ** Debug output of the extraction (src/main.py, [debug]) *)

(** What a [print] call writes: a list of cells ([print(current_row)],
    [print(column_headers)]) or a line of text. *)
Inductive printed : Type :=
| PrintedRow (row : list string)
| PrintedLine (line : string).

(** [print(x) if debug else None] *)
Definition print_if (debug : bool) (x : printed) (stdout : list printed) : list printed :=
  if debug then stdout ++ [x] else stdout.

Section Debug.
(** The module-level flag [debug]. *)
Context (debug : bool).

(** [current_table.append(current_row); print(current_row) if debug else None;
     current_row = []] *)
Definition flush_row_debug (s : State string) (stdout : list printed)
  : State string * list printed :=
  (flush_row s, print_if debug (PrintedRow (current_row s)) stdout).

(** [current_table.append(column_headers)] with its [print(column_headers)]
    (before the append in the [rowheader] branch, after it in the [gridcell]
    branch; the list is the same at both places). *)
Definition flush_headers_debug (s : State string) (stdout : list printed)
  : State string * list printed :=
  (flush_headers s, print_if debug (PrintedRow (column_headers s)) stdout).

(** [datasets.append(current_table); current_table = list();
     print("---- New Table ----") if debug else None] *)
Definition close_table_debug (s : State string) (stdout : list printed)
  : State string * list printed :=
  (close_table s, print_if debug (PrintedLine "---- New Table ----") stdout).

Definition on_columnheader_debug (pres_item : Tag) (s : State string)
    (stdout : list printed) : State string * list printed :=
  let '(s, stdout) :=
    if nonempty (current_row s) then flush_row_debug s stdout else (s, stdout) in
  let '(s, stdout) :=
    if negb (nonempty (column_headers s)) && nonempty (current_table s)
    then close_table_debug s stdout else (s, stdout) in
  (push_header (text pres_item) s, stdout).

Definition on_rowheader_debug (pres_item : Tag) (s : State string)
    (stdout : list printed) : State string * list printed :=
  let '(s, stdout) :=
    if nonempty (current_row s) then flush_row_debug s stdout else (s, stdout) in
  let '(s, stdout) :=
    if nonempty (column_headers s) then flush_headers_debug s stdout else (s, stdout) in
  (push_cell (text pres_item) s, stdout).

Definition on_gridcell_debug (pres_item : Tag) (s : State string)
    (stdout : list printed) : result (State string * list printed) :=
  let '(s, stdout) :=
    if nonempty (column_headers s) then flush_headers_debug s stdout else (s, stdout) in
  b ← row_start pres_item s;
  let '(s, stdout) := if b : bool then flush_row_debug s stdout else (s, stdout) in
  Ok (push_cell (text pres_item) s, stdout).

Definition step_debug (pres_item : Tag) (st : State string * list printed)
  : result (State string * list printed) :=
  role ← subscript (attrs pres_item) "role";
  let st := if contains "columnheader" role
            then on_columnheader_debug pres_item st.1 st.2 else st in
  role ← subscript (attrs pres_item) "role";
  let st := if contains "rowheader" role
            then on_rowheader_debug pres_item st.1 st.2 else st in
  role ← subscript (attrs pres_item) "role";
  if contains "gridcell" role then on_gridcell_debug pres_item st.1 st.2 else Ok st.

Fixpoint loop_debug (pres : list Tag) (st : State string * list printed)
  : result (State string * list printed) :=
  match pres with
  | [] => Ok st
  | pres_item :: pres' => st' ← step_debug pres_item st; loop_debug pres' st'
  end.

(** The code after the loop, with its [print(current_row)]. *)
Definition finalize_debug (st : State string * list printed)
  : list (list (list string)) * list printed :=
  if nonempty (current_row st.1)
  then (datasets st.1 ++ [current_table st.1 ++ [current_row st.1]],
        print_if debug (PrintedRow (current_row st.1)) st.2)
  else (datasets st.1, st.2).

(** The function together with what it writes to standard output. *)
Definition extract_debug (soup : list Tag)
  : result (list (list (list string)) * list printed) :=
  let pres := pres_items soup in
  st ← loop_debug pres (init, []);
  Ok (finalize_debug st).
End Debug.

(** The rows and the lines among what was printed. *)
Definition printed_rows (stdout : list printed) : list (list string) :=
  omap (λ x, match x with PrintedRow row => Some row | PrintedLine _ => None end) stdout.

(** What the pass prints for tables already closed by a later header and
    for the rows of the table under construction. *)
Definition debug_trace (closed : list (list (list string)))
    (current : list (list string)) : list printed :=
  concat ((λ tbl, (PrintedRow <$> tbl) ++ [PrintedLine "---- New Table ----"]) <$> closed)
    ++ (PrintedRow <$> current).

(** With [debug] on, what has been written lists the rows recorded so far,
    with a marker line behind each closed table. *)
Definition traces (st : State string * list printed) : Prop :=
  st.2 = debug_trace (datasets st.1) (current_table st.1).

Definition printed_lines (stdout : list printed) : list string :=
  omap (λ x, match x with PrintedLine line => Some line | PrintedRow _ => None end) stdout.

(** ** The page event handlers (src/main.py) *)

(** The module-level variables the handlers work on, and standard output. *)
Record Globals : Type := mkGlobals {
  g_debug : bool;
  dcl_event_count : nat;
  didFrameNavigate : bool;
  g_stdout : list printed
}.

Definition inc_dcl_event_count (g : Globals) : Globals :=
  let count := dcl_event_count g + 1 in
  {| g_debug := g_debug g;
     dcl_event_count := count;
     didFrameNavigate := didFrameNavigate g;
     g_stdout := print_if (g_debug g)
                   (PrintedLine ("DCL Event Count: " +:+ pretty count)) (g_stdout g) |}.

(** [frame.url] is all the handler reads of its argument. *)
Definition frame_navigated_handler (url : string) (g : Globals) : Globals :=
  {| g_debug := g_debug g;
     dcl_event_count := dcl_event_count g;
     didFrameNavigate := true;
     g_stdout := print_if (g_debug g)
                   (PrintedLine ("Frame navigated to " +:+ url)) (g_stdout g) |}.

(** The calls the page makes on the two handlers, in order. *)
Inductive page_event : Type :=
| DomContentLoaded
| FrameNavigated (url : string).

Definition handle (g : Globals) (e : page_event) : Globals :=
  match e with
  | DomContentLoaded => inc_dcl_event_count g
  | FrameNavigated url => frame_navigated_handler url g
  end.

Definition handle_all (events : list page_event) (g : Globals) : Globals :=
  foldl handle g events.

Definition is_dcl (e : page_event) : bool :=
  match e with DomContentLoaded => true | FrameNavigated _ => false end.

(** ** The CSV rendering (src/mcp_server.py) *)

(** The newline character of ["\n"]. *)
Definition NL : string := String (Ascii.ascii_of_nat 10) EmptyString.

(** [str(cell) if cell else ""] on a text cell: only the empty string is
    falsy. *)
Definition cell_field (cell : string) : string :=
  match cell with
  | EmptyString => ""
  | String _ _ => cell
  end.

(** [",".join(str(cell) if cell else "" for cell in row)] *)
Definition csv_row (row : list string) : string :=
  String.concat "," (cell_field <$> row).

(** [f"\n=== Table {i + 1} ===\n"] *)
Definition table_banner (i : nat) : string :=
  NL +:+ "=== Table " +:+ pretty (i + 1) +:+ " ===" +:+ NL.

(** [for row in table: output.append(csv_row)] *)
Fixpoint append_rows (table : list (list string)) (output : list string) : list string :=
  match table with
  | [] => output
  | row :: table' => append_rows table' (output ++ [csv_row row])
  end.

(** [for i, table in enumerate(datasets): ...], from index [i] on. *)
Fixpoint format_tables (i : nat) (datasets : list (list (list string)))
    (output : list string) : list string :=
  match datasets with
  | [] => output
  | table :: datasets' =>
      let output := output ++ [table_banner i] in
      let output := append_rows table output in
      let output := output ++ [""] in
      format_tables (S i) datasets' output
  end.

Definition format_datasets_as_csv (datasets : list (list (list string))) : string :=
  String.concat NL (format_tables 0 datasets []).

(** The entries one table contributes to [output]. *)
Definition table_block (i : nat) (table : list (list string)) : list string :=
  table_banner i :: (csv_row <$> table) ++ [""].

(** ** Intent detection (src/ottawa_public_health_agent/agent.py) *)

Definition INTENT_OUTBREAK : string := "outbreak".
Definition INTENT_HEALTH_ADVICE : string := "health_advice".
Definition INTENT_ANALYSIS : string := "analysis".
Definition INTENT_RESEARCH : string := "research".

(** [str.lower] on text made of ASCII characters: the letters [A]-[Z] become
    [a]-[z], every other character stays. *)
Definition lower_char (c : Ascii.ascii) : Ascii.ascii :=
  let n := Ascii.nat_of_ascii c in
  if (65 <=? n)%nat && (n <=? 90)%nat then Ascii.ascii_of_nat (n + 32) else c.

Fixpoint lower (s : string) : string :=
  match s with
  | EmptyString => EmptyString
  | String c s' => String (lower_char c) (lower s')
  end.

(** [str.isascii]: every character is below 128. *)
Fixpoint isascii (s : string) : bool :=
  match s with
  | EmptyString => true
  | String c s' => (Ascii.nat_of_ascii c <? 128)%nat && isascii s'
  end.

Definition outbreak_terms : list string :=
  ["outbreak"; "long term care"; "ltc"; "school"; "hospital"; "shelter";
   "child care"; "daycare"; "retirement home"].

Definition health_terms : list string :=
  ["symptom"; "prevent"; "mask"; "vaccine"; "vaccination"; "disease";
   "infection"; "fever"; "cough"; "sick"].

Definition analysis_terms : list string :=
  ["calculate"; "analysis"; "compute"; "python"; "code"; "chart"; "pandas"; "plot"].

(** [any(term in msg for term in terms)] *)
Definition any_term_in (terms : list string) (msg : string) : bool :=
  existsb (λ term, contains term msg) terms.

Definition detect_intent (user_message : string) : string :=
  let msg := lower user_message in
  if any_term_in outbreak_terms msg then INTENT_OUTBREAK
  else if any_term_in analysis_terms msg then INTENT_ANALYSIS
  else if any_term_in health_terms msg then INTENT_HEALTH_ADVICE
  else INTENT_RESEARCH.

(** ** The retry wrapper (src/ottawa_public_health_agent/agent.py) *)

(** What one [await agent.run(...)] does: it returns, raises an [Exception],
    or raises something [except Exception] does not catch. *)
Inductive outcome (V E : Type) : Type :=
| Returned (v : V)
| Raised (exc : E)
| RaisedBase (exc : E).
Arguments Returned {V E} v.
Arguments Raised {V E} exc.
Arguments RaisedBase {V E} exc.

(** What [call_with_retry] does: it returns a result, lets an exception
    through, or falls off the loop and returns [None]. *)
Inductive retry_result (V E : Type) : Type :=
| Result (v : V)
| Propagated (exc : E)
| ReturnedNone.
Arguments Result {V E} v.
Arguments Propagated {V E} exc.
Arguments ReturnedNone {V E}.

Section Retry.
Context {V E : Type}.
(** [run attempt] is the outcome of the call made in iteration [attempt];
    each iteration makes exactly one call. *)
Context (run : nat → outcome V E).

(** [for attempt in range(retries + 1):] over the attempts still to make. *)
Fixpoint attempts (retries : Z) (range : list nat) : retry_result V E :=
  match range with
  | [] => ReturnedNone
  | attempt :: range' =>
      match run attempt with
      | Returned v => Result v
      | Raised exc =>
          if bool_decide (Z.of_nat attempt = retries) then Propagated exc
          else attempts retries range'
      | RaisedBase exc => Propagated exc
      end
  end.

Definition call_with_retry (retries : Z) : retry_result V E :=
  attempts retries (seq 0 (Z.to_nat (retries + 1))).

(** The attempts from [a] up to, not including, [k] raised an [Exception]. *)
Definition raised_between (a k : nat) : Prop :=
  ∀ j, (a ≤ j)%nat → j < k → ∃ exc, run j = Raised exc.

(** All the attempts before [k] raised an [Exception]. *)
Definition all_raised_before (k : nat) : Prop :=
  ∀ j, j < k → ∃ exc, run j = Raised exc.
End Retry.

(** ** Shape of the tables (on the traced pass) *)

(** A row that holds no column header. *)
Definition body_row (row : list Tag) : Prop := Forall (λ t, ¬ is_columnheader t) row.

(** A table in which only the first row may hold column headers, and then
    holds nothing else. *)
Definition header_first (tbl : list (list Tag)) : Prop :=
  match tbl with
  | [] => True
  | first :: rest => (Forall is_columnheader first ∨ body_row first) ∧ Forall body_row rest
  end.

(** A table whose last row is a non-empty row without column headers. *)
Definition ends_with_body (tbl : list (list Tag)) : Prop :=
  ∃ rows row, tbl = rows ++ [row] ∧ row ≠ [] ∧ body_row row.

Record Headed (s : State Tag) : Prop := {
  headed_headers : Forall is_columnheader (column_headers s);
  headed_row : body_row (current_row s);
  headed_table : header_first (current_table s);
  headed_datasets : Forall header_first (datasets s);
  headed_closed : Forall ends_with_body (datasets s)
}.

(** The number of maximal runs of row headers and cells in the item
    sequence; [pending] tells whether such a run is under way. *)
Fixpoint table_runs (pending : bool) (pres : list Tag) : nat :=
  match pres with
  | [] => if pending then 1 else 0
  | t :: pres' =>
      if bool_decide (is_columnheader t)
      then (if pending then 1 else 0) + table_runs false pres'
      else table_runs true pres'
  end.

(** ** Grids as the renderer lays them out *)

(** The cells of one data row: cell number [i] carries the column index
    [i], written in decimal. *)
Definition grid_cells (row : list string) : list Tag :=
  imap (λ i c, GridCell (Some (pretty i)) c) row.

(** A table, given by its header texts and its data rows, in document
    order: the column headers, then the rows cell by cell. *)
Definition linearize (tbl : list string * list (list string)) : list Tag :=
  (ColumnHeader <$> tbl.1) ++ concat (grid_cells <$> tbl.2).

(** A table with a header, at least one row, and at least two columns. *)
Definition well_shaped (tbl : list string * list (list string)) : Prop :=
  tbl.1 ≠ [] ∧ tbl.2 ≠ [] ∧ Forall (λ row, (2 ≤ length row)%nat) tbl.2.

(** The rows of the table under construction, the pending row included. *)
Definition committed {A : Type} (s : State A) : list (list A) :=
  current_table s ++ (if nonempty (current_row s) then [current_row s] else []).

(** The cells of a list taken two by two. *)
Fixpoint pairs (cells : list string) : list (list string) :=
  match cells with
  | a :: b :: cells' => [a; b] :: pairs cells'
  | [a] => [[a]]
  | [] => []
  end.

(** A table of a single column: column headers, then one cell per row, each
    with column index ['0']. *)
Definition single_column (hs cells : list string) : list Tag :=
  (ColumnHeader <$> hs) ++ (GridCell (Some "0") <$> cells).

(** A data row led by a row header: the header, then the cells. *)
Definition labelled_row (row : string * list string) : list Tag :=
  RowHeader row.1 :: grid_cells row.2.

(** A table whose rows are led by row headers, in document order. *)
Definition linearize_labelled (tbl : list string * list (string * list string)) : list Tag :=
  (ColumnHeader <$> tbl.1) ++ concat (labelled_row <$> tbl.2).

(** The rows such a table is made of: the header row, then each row header
    followed by its cells. *)
Definition labelled_table (tbl : list string * list (string * list string))
  : list (list string) :=
  tbl.1 :: ((λ row, row.1 :: row.2) <$> tbl.2).

(** ** Basic facts: the monad, the role tests, the preprocessing *)

Lemma bind_Ok {A B : Type} (a : A) (k : A → result B) : (Ok a ≫= k) = k a.
Proof. reflexivity. Qed.

Lemma bind_Raise {A B : Type} (e : exn) (k : A → result B) : (Raise e ≫= k) = Raise e.
Proof. reflexivity. Qed.

Lemma bind_Ok_inv {A B : Type} (r : result A) (k : A → result B) (b : B) :
  (r ≫= k) = Ok b → ∃ a, r = Ok a ∧ k a = Ok b.
Proof. destruct r as [a|e]; [eauto | discriminate]. Qed.

Lemma subscript_Some d key v : d !! key = Some v → subscript d key = Ok v.
Proof. unfold subscript. by intros ->. Qed.

Lemma subscript_None d key : d !! key = None → subscript d key = Raise (KeyError key).
Proof. unfold subscript. by intros ->. Qed.

Lemma has_role_cases t :
  has_role t = true → is_columnheader t ∨ is_rowheader t ∨ is_gridcell t.
Proof.
  unfold has_role, is_columnheader, is_rowheader, is_gridcell.
  destruct (attrs t !! "role") as [r|]; [|discriminate].
  intros Hr%bool_decide_eq_true. unfold ROLES in Hr.
  rewrite !elem_of_cons, elem_of_nil in Hr.
  destruct Hr as [->|[->|[->|[]]]]; auto.
Qed.

Lemma is_columnheader_has_role t : is_columnheader t → has_role t = true.
Proof. unfold is_columnheader, has_role. by intros ->. Qed.

Lemma is_rowheader_has_role t : is_rowheader t → has_role t = true.
Proof. unfold is_rowheader, has_role. by intros ->. Qed.

Lemma is_gridcell_has_role t : is_gridcell t → has_role t = true.
Proof. unfold is_gridcell, has_role. by intros ->. Qed.

Lemma gridcell_not_rowheader t : is_gridcell t → ¬ is_rowheader t.
Proof. unfold is_gridcell, is_rowheader. congruence. Qed.

Lemma columnheader_not_rowheader t : is_columnheader t → ¬ is_rowheader t.
Proof. unfold is_columnheader, is_rowheader. congruence. Qed.

(** Stripping leaves every attribute outside [REMOVE_ATTRIBUTES] alone. *)
Lemma strip_attrs_lookup t key :
  key ∉ REMOVE_ATTRIBUTES → attrs (strip_attrs t) !! key = attrs t !! key.
Proof.
  intros Hk. simpl. destruct (attrs t !! key) as [v|] eqn:E.
  - by apply map_lookup_filter_Some.
  - apply map_lookup_filter_None. left. done.
Qed.

Lemma strip_attrs_role t : attrs (strip_attrs t) !! "role" = attrs t !! "role".
Proof. apply strip_attrs_lookup. compute_done. Qed.

Lemma strip_attrs_column_index t :
  attrs (strip_attrs t) !! "column-index" = attrs t !! "column-index".
Proof. apply strip_attrs_lookup. compute_done. Qed.

Lemma strip_attrs_has_role t : has_role (strip_attrs t) = has_role t.
Proof. unfold has_role. by rewrite strip_attrs_role. Qed.

Lemma strip_attrs_idemp t : strip_attrs (strip_attrs t) = strip_attrs t.
Proof.
  unfold strip_attrs. simpl. f_equal.
  apply map_eq. intros k. apply option_eq. intros v.
  rewrite !map_lookup_filter_Some. tauto.
Qed.

Lemma strip_all_idemp soup : strip_all (strip_all soup) = strip_all soup.
Proof.
  unfold strip_all. rewrite <- list_fmap_compose.
  apply list_fmap_ext. intros _ t _. apply strip_attrs_idemp.
Qed.

Lemma find_all_strip_all soup : find_all (strip_all soup) = strip_all (find_all soup).
Proof.
  unfold find_all, strip_all. induction soup as [|t soup IH]; [done|].
  rewrite fmap_cons, !filter_cons, strip_attrs_has_role.
  destruct (decide (has_role t = true)); rewrite IH; done.
Qed.

Lemma pres_items_app soup1 soup2 :
  pres_items (soup1 ++ soup2) = pres_items soup1 ++ pres_items soup2.
Proof. unfold pres_items, find_all, strip_all. by rewrite fmap_app, filter_app. Qed.

Lemma pres_items_has_role soup : Forall (λ t, has_role t = true) (pres_items soup).
Proof.
  unfold pres_items, find_all. apply Forall_forall. intros t Ht.
  by apply list_elem_of_filter in Ht as [? _].
Qed.

Lemma nonempty_snoc {B : Type} (l : list B) (x : B) : nonempty (l ++ [x]) = true.
Proof. by destruct l. Qed.

Lemma snoc_neq_nil {B : Type} (l : list B) (x : B) : l ++ [x] ≠ [].
Proof. by destruct l. Qed.

Lemma elem_of_concat {B : Type} (x : B) (ls : list (list B)) :
  x ∈ concat ls → ∃ l, x ∈ l ∧ l ∈ ls.
Proof.
  induction ls as [|l ls IH]; simpl.
  - by intros ?%elem_of_nil.
  - intros [Hx|Hx]%elem_of_app.
    + exists l. split; [done | left].
    + destruct (IH Hx) as (l' & ? & ?). exists l'. split; [done | by right].
Qed.

Lemma nonempty_true {B : Type} (l : list B) : nonempty l = true ↔ l ≠ [].
Proof. by destruct l. Qed.

Lemma nonempty_false {B : Type} (l : list B) : nonempty l = false ↔ l = [].
Proof. by destruct l. Qed.

(** ** The loop: role dispatch and sequencing *)

Section Loop.
Context {A : Type} (get_text : Tag → A).

(** For an element with one of the three roles exactly one [if] fires. *)
Lemma step_columnheader t s :
  is_columnheader t → step get_text t s = Ok (on_columnheader get_text t s).
Proof. intros H. unfold step. by rewrite (subscript_Some _ _ _ H). Qed.

Lemma step_rowheader t s :
  is_rowheader t → step get_text t s = Ok (on_rowheader get_text t s).
Proof. intros H. unfold step. by rewrite (subscript_Some _ _ _ H). Qed.

Lemma step_gridcell t s :
  is_gridcell t → step get_text t s = on_gridcell get_text t s.
Proof. intros H. unfold step. by rewrite (subscript_Some _ _ _ H). Qed.

Lemma loop_app pres1 pres2 s :
  loop get_text (pres1 ++ pres2) s = (loop get_text pres1 s ≫= loop get_text pres2).
Proof.
  revert s. induction pres1 as [|t pres1 IH]; intros s; simpl; [done|].
  destruct (step get_text t s) as [s'|e]; simpl; [apply IH | done].
Qed.

Lemma loop_snoc pres t s :
  loop get_text (pres ++ [t]) s = (loop get_text pres s ≫= step get_text t).
Proof.
  rewrite loop_app. destruct (loop get_text pres s) as [s'|e]; simpl; [|done].
  by destruct (step get_text t s').
Qed.

(** Invariants are proved once: a property of the initial state that every
    iteration on a role-filtered element preserves holds after the loop. *)
Lemma loop_invariant (I : list Tag → State A → Prop) :
  I [] init →
  (∀ seen t s s', has_role t = true → I seen s →
     step get_text t s = Ok s' → I (seen ++ [t]) s') →
  ∀ pres s, Forall (λ t, has_role t = true) pres →
    loop get_text pres init = Ok s → I pres s.
Proof.
  intros Hinit Hstep pres. induction pres as [|t pres IH] using rev_ind; intros s Hall.
  - simpl. by intros [= <-].
  - rewrite loop_snoc. apply Forall_app in Hall as [Hall Ht].
    rewrite Forall_singleton in Ht.
    intros (s0 & Hs0 & Hs)%bind_Ok_inv.
    eapply Hstep; [exact Ht | by apply IH | exact Hs].
Qed.
End Loop.

(** Closing steps of the invariant proofs: the recorded cells are compared
    after flattening, the non-emptiness facts after splitting the appends. *)
Ltac recorded H :=
  rewrite fmap_app, <- H;
  repeat (progress (rewrite ?concat_app, ?app_nil_r; simpl));
  rewrite <- ?app_assoc; simpl; done.

Ltac nonempties :=
  repeat (progress (rewrite ?Forall_app, ?Forall_singleton));
  repeat split; auto using snoc_neq_nil; done.

Ltac field H :=
  simpl; first [ done | by auto | by intros []%snoc_neq_nil | recorded H | nonempties ].

(** ** What one iteration does, by role *)

Section Step.
Context {A : Type} (get_text : Tag → A).

Lemma on_gridcell_Ok t s s' :
  on_gridcell get_text t s = Ok s' →
  ∃ b : bool,
    (b = true → 1 < length (current_row (headers_flushed s))) ∧
    s' = push_cell (get_text t)
           (if b then flush_row (headers_flushed s) else headers_flushed s).
Proof.
  unfold on_gridcell, row_start. fold (headers_flushed s).
  case_bool_decide as Hlen.
  - destruct (subscript (attrs t) "column-index") as [idx|e]; simpl; [|done].
    intros [= <-]. by exists (String.eqb idx "0").
  - simpl. intros [= <-]. by exists false.
Qed.

Lemma step_Ok t s s' :
  has_role t = true → step get_text t s = Ok s' →
  (is_columnheader t ∧ s' = on_columnheader get_text t s) ∨
  (is_rowheader t ∧ s' = on_rowheader get_text t s) ∨
  (is_gridcell t ∧ on_gridcell get_text t s = Ok s').
Proof.
  intros [H|[H|H]]%has_role_cases.
  - rewrite step_columnheader by done. intros [= <-]. by left.
  - rewrite step_rowheader by done. intros [= <-]. right. by left.
  - rewrite step_gridcell by done. intros Hs. right. by right.
Qed.

Lemma Invariant_init : Invariant get_text [] init.
Proof. by split; simpl; auto. Qed.

Lemma Invariant_step seen t s s' :
  has_role t = true → Invariant get_text seen s →
  step get_text t s = Ok s' → Invariant get_text (seen ++ [t]) s'.
Proof.
  intros Ht [Hex Htb Hcells Hne [Hr1 Hr2]] Hstep.
  destruct s as [hs row tb ds]; simpl in *.
  destruct (step_Ok _ _ _ Ht Hstep) as [[_ ->]|[[_ ->]|[_ Hs]]]; clear Hstep.
  - unfold on_columnheader.
    destruct row as [|c row]; simpl.
    + rewrite (Htb eq_refl) in *. rewrite andb_false_r. simpl.
      split; field Hcells.
    + destruct Hex as [->|?]; [|done]. simpl. rewrite nonempty_snoc. simpl.
      split; field Hcells.
  - unfold on_rowheader.
    destruct row as [|c row]; simpl.
    + destruct hs as [|h hs]; simpl; split; field Hcells.
    + destruct Hex as [->|?]; [|done]. simpl.
      split; field Hcells.
  - apply on_gridcell_Ok in Hs as (b & Hb & ->).
    unfold headers_flushed in *; simpl in *.
    destruct hs as [|h hs]; simpl in *.
    + destruct b; simpl.
      * destruct row as [|c row]; [specialize (Hb eq_refl); simpl in Hb; lia|].
        split; field Hcells.
      * split; field Hcells.
    + destruct Hex as [?| ->]; [done|].
      destruct b; [specialize (Hb eq_refl); simpl in Hb; lia|].
      split; field Hcells.
Qed.

Lemma loop_Invariant pres s :
  Forall (λ t, has_role t = true) pres →
  loop get_text pres init = Ok s → Invariant get_text pres s.
Proof.
  apply (loop_invariant get_text (Invariant get_text)); [exact Invariant_init|].
  intros seen t s0 s1. apply Invariant_step.
Qed.
End Step.

(** ** Provenance: the loop is natural in the cell payload *)

Lemma nonempty_fmap {A B : Type} (f : A → B) (l : list A) :
  nonempty (f <$> l) = nonempty l.
Proof. by destruct l. Qed.

Section Naturality.
Context {A B : Type} (f : A → B) (g : Tag → A).

Lemma on_columnheader_map t s :
  on_columnheader (f ∘ g) t (map_state f s) = map_state f (on_columnheader g t s).
Proof.
  destruct s as [hs row tb ds]. unfold on_columnheader. simpl.
  rewrite !nonempty_fmap.
  destruct row, hs, tb; simpl; unfold map_state; simpl;
    unfold map_dataset, map_table;
    rewrite ?nonempty_fmap, ?fmap_app; simpl;
    rewrite ?nonempty_snoc; simpl; by rewrite ?fmap_app.
Qed.

Lemma on_rowheader_map t s :
  on_rowheader (f ∘ g) t (map_state f s) = map_state f (on_rowheader g t s).
Proof.
  destruct s as [hs row tb ds]. unfold on_rowheader. simpl.
  destruct row, hs; simpl; unfold map_state, map_table; simpl; by rewrite ?fmap_app.
Qed.

Lemma on_gridcell_map t s :
  on_gridcell (f ∘ g) t (map_state f s) = map_state f <$> on_gridcell g t s.
Proof.
  destruct s as [hs row tb ds]. unfold on_gridcell, row_start. simpl.
  destruct hs; simpl; rewrite ?length_fmap;
    case_bool_decide; simpl;
    try (destruct (subscript (attrs t) "column-index") as [idx|e]; simpl; [|done];
         destruct (String.eqb idx "0"); simpl);
    unfold map_state, map_table; simpl; by rewrite ?fmap_app.
Qed.

Lemma step_map t s :
  step (f ∘ g) t (map_state f s) = map_state f <$> step g t s.
Proof.
  unfold step. destruct (subscript (attrs t) "role") as [role|e]; simpl; [|done].
  destruct (contains "columnheader" role), (contains "rowheader" role),
    (contains "gridcell" role);
    by rewrite ?on_columnheader_map, ?on_rowheader_map, ?on_gridcell_map.
Qed.

Lemma loop_map pres s :
  loop (f ∘ g) pres (map_state f s) = map_state f <$> loop g pres s.
Proof.
  revert s. induction pres as [|t pres IH]; intros s; simpl; [done|].
  rewrite step_map. destruct (step g t s) as [s'|e]; simpl; [apply IH | done].
Qed.

Lemma finalize_map s :
  finalize (map_state f s) = map_dataset f (finalize s).
Proof.
  destruct s as [hs row tb ds]. unfold finalize. simpl. rewrite nonempty_fmap.
  destruct row; simpl; [done|]. unfold map_dataset, map_table.
  rewrite fmap_app. simpl. by rewrite fmap_app.
Qed.

Lemma extract_with_map soup :
  extract_with (f ∘ g) soup = map_dataset f <$> extract_with g soup.
Proof.
  unfold extract_with. simpl.
  change (@init B) with (map_state f (@init A)). rewrite loop_map.
  destruct (loop g (pres_items soup) init) as [s|e]; simpl; [|done].
  by rewrite finalize_map.
Qed.
End Naturality.

Lemma extract_traced_text soup :
  extract_table_data_from_powerbi_html soup = map_dataset text <$> extract_traced soup.
Proof. exact (extract_with_map text (λ t, t) soup). Qed.

Lemma row_header_first_nil : row_header_first [].
Proof. intros i t. by rewrite lookup_nil. Qed.

Lemma row_header_first_singleton t : row_header_first [t].
Proof. intros [|i] t'; [done|]. by rewrite lookup_cons, lookup_nil. Qed.

Lemma row_header_first_snoc row t :
  row_header_first row → ¬ is_rowheader t → row_header_first (row ++ [t]).
Proof.
  intros Hrow Ht i t' Hi Hrh.
  apply lookup_app_Some in Hi as [Hi|[_ Hi]]; [by eapply Hrow|].
  apply list_lookup_singleton_Some in Hi as [_ <-]. done.
Qed.

Lemma row_header_first_headers hs :
  Forall (λ t, ¬ is_rowheader t) hs → row_header_first hs.
Proof.
  intros Hhs i t Hi Hrh. rewrite Forall_forall in Hhs.
  destruct (Hhs t); [|done]. by eapply list_elem_of_lookup_2.
Qed.

Ltac traced :=
  simpl;
  repeat match goal with
         | H : Forall _ (_ :: _) |- _ => rewrite Forall_cons in H; destruct H
         end;
  repeat (progress (rewrite ?Forall_app, ?Forall_singleton, ?Forall_cons));
  repeat split;
  auto using Forall_nil_2, row_header_first_nil, row_header_first_singleton,
    row_header_first_snoc, row_header_first_headers,
    columnheader_not_rowheader, gridcell_not_rowheader.

Lemma Traced_step t s s' :
  has_role t = true → Traced s → step (λ t, t) t s = Ok s' → Traced s'.
Proof.
  intros Ht [Hh Hr Ht' Hd] Hstep.
  destruct s as [hs row tb ds]; simpl in *.
  destruct (step_Ok _ _ _ _ Ht Hstep) as [[Hrole ->]|[[Hrole ->]|[Hrole Hs]]]; clear Hstep.
  - unfold on_columnheader.
    destruct row as [|c row], hs as [|h hs], tb as [|r tb]; simpl; split; traced.
  - unfold on_rowheader.
    destruct row as [|c row], hs as [|h hs]; simpl; split; traced.
  - apply on_gridcell_Ok in Hs as (b & _ & ->). unfold headers_flushed. simpl.
    destruct hs as [|h hs], b; simpl; split; traced.
Qed.

Lemma loop_Traced pres s :
  Forall (λ t, has_role t = true) pres → loop (λ t, t) pres init = Ok s → Traced s.
Proof.
  apply (loop_invariant (λ t, t) (λ _, Traced)).
  - split; simpl; auto using row_header_first_nil.
  - intros _ t s0 s1. apply Traced_step.
Qed.

(** ** Runs of headers and of cells *)

Section Runs.
Context {A : Type} (get_text : Tag → A).

(** Further headers of a group only extend [column_headers]. *)
Lemma loop_header_group hs s :
  Forall is_columnheader hs →
  current_row s = [] →
  column_headers s ≠ [] ∨ current_table s = [] →
  loop get_text hs s =
    Ok {| column_headers := column_headers s ++ (get_text <$> hs);
          current_row := [];
          current_table := current_table s;
          datasets := datasets s |}.
Proof.
  revert s. induction hs as [|h hs IH]; intros [c r tb ds] Hall Hr Hs; simpl in *.
  - subst r. by rewrite app_nil_r.
  - apply Forall_cons in Hall as [Hh Hall]. subst r.
    rewrite step_columnheader by done. simpl.
    unfold on_columnheader; simpl.
    assert (negb (nonempty c) && nonempty tb = false) as ->.
    { destruct Hs as [Hc| ->]; [by destruct c | by rewrite andb_false_r]. }
    simpl. rewrite IH; simpl; auto using snoc_neq_nil.
    by rewrite <- app_assoc.
Qed.

(** Cells that continue the pending row only extend [current_row]. *)
Lemma loop_one_row cells s :
  column_headers s = [] →
  one_row_from (length (current_row s)) cells →
  loop get_text cells s =
    Ok {| column_headers := [];
          current_row := current_row s ++ (get_text <$> cells);
          current_table := current_table s;
          datasets := datasets s |}.
Proof.
  revert s. induction cells as [|t cells IH]; intros [c r tb ds] Hc Hrow; simpl in *.
  - subst c. by rewrite app_nil_r.
  - destruct Hrow as [[Hcell Hidx] Hrow]. subst c.
    rewrite step_gridcell by done.
    unfold on_gridcell, row_start; simpl.
    assert ((if bool_decide (1 < length r)
             then idx ← subscript (attrs t) "column-index"; Ok (String.eqb idx "0")
             else Ok false) = Ok false) as ->.
    { case_bool_decide as Hlen; [|done].
      destruct (Hidx Hlen) as (idx & Hi & Hne).
      rewrite (subscript_Some _ _ _ Hi). simpl.
      by apply String.eqb_neq in Hne as ->. }
    simpl. rewrite IH; simpl; [|done|].
    + by rewrite <- app_assoc.
    + by rewrite length_app, Nat.add_1_r.
Qed.
End Runs.

(** ** Elements through the preprocessing *)

Lemma strip_attrs_columnheader t : is_columnheader (strip_attrs t) ↔ is_columnheader t.
Proof. unfold is_columnheader. by rewrite strip_attrs_role. Qed.

Lemma strip_attrs_rowheader t : is_rowheader (strip_attrs t) ↔ is_rowheader t.
Proof. unfold is_rowheader. by rewrite strip_attrs_role. Qed.

Lemma strip_attrs_gridcell t : is_gridcell (strip_attrs t) ↔ is_gridcell t.
Proof. unfold is_gridcell. by rewrite strip_attrs_role. Qed.

Lemma strip_attrs_continues_row n t : continues_row n (strip_attrs t) ↔ continues_row n t.
Proof. unfold continues_row. by rewrite strip_attrs_gridcell, strip_attrs_column_index. Qed.

Lemma strip_all_one_row_from n cells :
  one_row_from n (strip_all cells) ↔ one_row_from n cells.
Proof.
  revert n. induction cells as [|t cells IH]; intros n; simpl; [done|].
  by rewrite strip_attrs_continues_row, IH.
Qed.

Lemma strip_all_text soup : text <$> strip_all soup = text <$> soup.
Proof. unfold strip_all. rewrite <- list_fmap_compose. by apply list_fmap_ext. Qed.

(** A document made of grid items only goes through [find_all] whole. *)
Lemma pres_items_all soup :
  Forall (λ t, has_role t = true) soup → pres_items soup = strip_all soup.
Proof.
  intros Hall. unfold pres_items. rewrite find_all_strip_all. f_equal.
  unfold find_all. induction Hall as [|t soup Ht _ IH]; [done|].
  by rewrite filter_cons_True, IH.
Qed.

Lemma pres_items_elem t soup :
  t ∈ pres_items soup → ∃ t0, t0 ∈ soup ∧ t = strip_attrs t0 ∧ has_role t0 = true.
Proof.
  unfold pres_items. rewrite find_all_strip_all. unfold strip_all, find_all.
  intros (t0 & -> & Ht0)%list_elem_of_fmap.
  apply list_elem_of_filter in Ht0 as [? ?]. eauto.
Qed.

(** ** Totality on well-formed input *)

Section Totality.
Context {A : Type} (get_text : Tag → A).

Lemma on_gridcell_total t s :
  is_Some (attrs t !! "column-index") → ∃ s', on_gridcell get_text t s = Ok s'.
Proof.
  intros [idx Hidx]. unfold on_gridcell, row_start.
  rewrite (subscript_Some _ _ _ Hidx). case_bool_decide; simpl; eauto.
Qed.

Lemma loop_total pres s :
  Forall (λ t, has_role t = true) pres →
  (∀ t, t ∈ pres → is_gridcell t → is_Some (attrs t !! "column-index")) →
  ∃ s', loop get_text pres s = Ok s'.
Proof.
  revert s. induction pres as [|t pres IH]; intros s Hall Hwf; simpl; [eauto|].
  apply Forall_cons in Hall as [Ht Hall].
  assert (∃ s1, step get_text t s = Ok s1) as [s1 ->].
  { destruct (has_role_cases _ Ht) as [H|[H|H]].
    - rewrite step_columnheader by done. eauto.
    - rewrite step_rowheader by done. eauto.
    - rewrite step_gridcell by done. apply on_gridcell_total, Hwf; [left|done]. }
  simpl. apply IH; [done|]. intros t' Ht'. apply Hwf. by right.
Qed.
End Totality.

Lemma well_formed_pres_items soup :
  well_formed soup →
  ∀ t, t ∈ pres_items soup → is_gridcell t → is_Some (attrs t !! "column-index").
Proof.
  intros Hwf t (t0 & Ht0 & -> & _)%pres_items_elem.
  rewrite strip_attrs_gridcell, strip_attrs_column_index. by apply Hwf.
Qed.

(** ** The claims *)

(** C8. Scenario A: two column headers followed by two data cells with
    indices 0 and 1 give exactly one table, the header row and one data
    row. *)
Theorem scenario_A_single_table :
  extract_table_data_from_powerbi_html
    [ColumnHeader "Name"; ColumnHeader "Count";
     GridCell (Some "0") "Flu"; GridCell (Some "1") "12"]
  = Ok [[["Name"; "Count"]; ["Flu"; "12"]]].
Proof. vm_compute. reflexivity. Qed.

(** C6. On a well-formed document (every data cell carries a column index)
    the reconstruction returns a dataset and does not raise; when the
    sequence of grid items is empty, as for the empty document, that dataset
    is empty. *)
Theorem well_formed_total (soup : list Tag) :
  well_formed soup →
  ∃ out, extract_table_data_from_powerbi_html soup = Ok out ∧
         (pres_items soup = [] → out = []).
Proof.
  intros Hwf. unfold extract_table_data_from_powerbi_html, extract_with.
  destruct (loop_total text (pres_items soup) init) as [s Hs].
  - apply pres_items_has_role.
  - by apply well_formed_pres_items.
  - simpl. rewrite Hs. simpl. eexists. split; [done|].
    intros Hnil. rewrite Hnil in Hs. simpl in Hs. by injection Hs as <-.
Qed.

Lemma well_formed_total_witness :
  (∃ out,
     extract_table_data_from_powerbi_html
       [ColumnHeader "Unit"; RowHeader "Ward 1"; GridCell (Some "1") "3 cases"] = Ok out
     ∧ (pres_items
          [ColumnHeader "Unit"; RowHeader "Ward 1"; GridCell (Some "1") "3 cases"] = []
        → out = []))
  ∧ (∃ out,
       extract_table_data_from_powerbi_html [] = Ok out ∧ (pres_items [] = [] → out = [])).
Proof.
  split.
  - apply well_formed_total.
    intros t Ht Hcell.
    repeat (apply elem_of_cons in Ht as [->|Ht]); try discriminate Hcell.
    + by eexists.
    + by apply elem_of_nil in Ht.
  - apply well_formed_total.
    intros t Ht. by apply elem_of_nil in Ht.
Defined.

(** C1 (as stated, refuted). A data cell without a column index reached
    while the pending row already holds two cells makes the whole pass
    raise [KeyError]. *)
Lemma missing_index_raises :
  extract_table_data_from_powerbi_html
    [GridCell (Some "0") "Flu"; GridCell (Some "1") "12"; GridCell None "7"]
  = Raise (KeyError "column-index").
Proof. vm_compute. reflexivity. Qed.

(** C1 (amended). A data cell whose column index is absent is appended to
    the pending row without a row start, and without raising, as long as the
    pending row holds at most one cell; once the pending row holds more than
    one cell the index lookup raises [KeyError]. *)
Theorem missing_index_step (t : Tag) (s : State string) :
  is_gridcell t →
  attrs t !! "column-index" = None →
  step text t s =
    if bool_decide (length (current_row s) ≤ 1)%nat
    then Ok (push_cell (text t) (headers_flushed s))
    else Raise (KeyError "column-index").
Proof.
  intros Hcell Hidx. rewrite step_gridcell by done.
  unfold on_gridcell, row_start. fold (headers_flushed s).
  assert (current_row (headers_flushed s) = current_row s) as ->.
  { unfold headers_flushed. by destruct (nonempty (column_headers s)). }
  rewrite (subscript_None _ _ Hidx).
  repeat case_bool_decide; (done || lia).
Qed.

Lemma missing_index_step_witness :
  step text (GridCell None "7") (mkState [] ["Ward 1"] [["Unit"]] [])
    = Ok (mkState [] ["Ward 1"; "7"] [["Unit"]] [])
  ∧ step text (GridCell None "7") (mkState [] ["Flu"; "12"] [] [])
    = Raise (KeyError "column-index").
Proof.
  split.
  - exact (missing_index_step (GridCell None "7")
             (mkState [] ["Ward 1"] [["Unit"]] []) eq_refl eq_refl).
  - exact (missing_index_step (GridCell None "7")
             (mkState [] ["Flu"; "12"] [] []) eq_refl eq_refl).
Defined.

(** The state between two items: the loop has consumed the first [n]. *)
Lemma take_pres_items_has_role soup n :
  Forall (λ t, has_role t = true) (take n (pres_items soup)).
Proof. apply Forall_take, pres_items_has_role. Qed.

(** C2 (as stated, refuted). There is no document and no point between two
    of its items at which [column_headers] and [current_row] are both
    non-empty. *)
Lemma never_both_pending :
  ¬ ∃ (soup : list Tag) (n : nat) (s : State string),
      loop text (take n (pres_items soup)) init = Ok s ∧
      column_headers s ≠ [] ∧ current_row s ≠ [].
Proof.
  intros (soup & n & s & Hs & Hh & Hr).
  apply loop_Invariant in Hs; [|apply take_pres_items_has_role].
  by destruct (inv_exclusive _ _ _ Hs).
Qed.

(** C2 (amended). Processing one item extends exactly one of the two
    accumulators with that item's text and leaves the other one empty, so
    between two items, before the item as well as after it, at most one of
    [column_headers] and [current_row] is non-empty. *)
Theorem one_accumulator_pending
    (soup : list Tag) (n : nat) (s : State string) (t : Tag) (s' : State string) :
  loop text (take n (pres_items soup)) init = Ok s →
  pres_items soup !! n = Some t →
  step text t s = Ok s' →
  (column_headers s = [] ∨ current_row s = []) ∧
  ((column_headers s' = column_headers s ++ [text t] ∧ current_row s' = []) ∨
   (column_headers s' = [] ∧
    (current_row s' = current_row s ++ [text t] ∨ current_row s' = [text t]))).
Proof.
  intros Hs Ht Hstep. split.
  - apply loop_Invariant in Hs; [|apply take_pres_items_has_role].
    exact (inv_exclusive _ _ _ Hs).
  - assert (has_role t = true) as Hrole.
    { eapply (proj1 (Forall_forall _ _) (pres_items_has_role soup)).
      by eapply list_elem_of_lookup_2. }
    clear Hs Ht. destruct s as [hs row tb ds].
    destruct (step_Ok _ _ _ _ Hrole Hstep) as [[_ ->]|[[_ ->]|[_ Hg]]]; clear Hstep.
    + left. unfold on_columnheader. simpl.
      destruct row; simpl; [|rewrite nonempty_snoc];
        by destruct (negb (nonempty hs) && _).
    + right. unfold on_rowheader. simpl.
      destruct row, hs; simpl; auto.
    + right. apply on_gridcell_Ok in Hg as (b & _ & ->).
      unfold headers_flushed. simpl.
      destruct hs, b; simpl; auto.
Qed.

Lemma one_accumulator_pending_witness :
  let s := mkState ["Name"; "Count"] [] [] [] in
  let t := GridCell (Some "0") "Flu" in
  let s' := mkState [] ["Flu"] [["Name"; "Count"]] [] in
  (column_headers s = [] ∨ current_row s = []) ∧
  ((column_headers s' = column_headers s ++ [text t] ∧ current_row s' = []) ∨
   (column_headers s' = [] ∧
    (current_row s' = current_row s ++ [text t] ∨ current_row s' = [text t]))).
Proof.
  intros s t s'.
  apply (one_accumulator_pending
           [ColumnHeader "Name"; ColumnHeader "Count";
            GridCell (Some "0") "Flu"; GridCell (Some "1") "12"] 2 s t s').
  - vm_compute. reflexivity.
  - vm_compute. reflexivity.
  - vm_compute. reflexivity.
Defined.

(** A column header met by a state of the loop records what finalization
    would have recorded, and leaves nothing for finalization to record. *)
Lemma on_columnheader_finalize {A : Type} (get_text : Tag → A) seen t s :
  Invariant get_text seen s →
  let s' := on_columnheader get_text t s in
  current_row s' = [] ∧ column_headers s' ≠ [] ∧ datasets s' = finalize s.
Proof.
  intros [Hex Htb _ _ _]. destruct s as [hs row tb ds]; simpl in *.
  unfold on_columnheader, finalize; simpl. destruct row as [|c row]; simpl.
  - rewrite (Htb eq_refl), andb_false_r. simpl. auto using snoc_neq_nil.
  - destruct Hex as [->|?]; [|done]. simpl. rewrite nonempty_snoc. simpl.
    auto using snoc_neq_nil.
Qed.

Lemma trailing_headers_dropped (soup hs : list Tag) :
  Forall is_columnheader hs →
  extract_table_data_from_powerbi_html (soup ++ hs)
  = extract_table_data_from_powerbi_html soup.
Proof.
  intros Hhs. unfold extract_table_data_from_powerbi_html, extract_with. simpl.
  rewrite pres_items_app, loop_app.
  pose proof (loop_Invariant text (pres_items soup)) as Hinv.
  destruct (loop text (pres_items soup) init) as [s|e]; simpl; [|done].
  specialize (Hinv s (pres_items_has_role soup) eq_refl).
  rewrite pres_items_all
    by (eapply Forall_impl; [exact Hhs | apply is_columnheader_has_role]).
  assert (Forall is_columnheader (strip_all hs)) as Hhs'.
  { unfold strip_all. apply Forall_fmap. eapply Forall_impl; [exact Hhs|].
    intros t. apply strip_attrs_columnheader. }
  destruct (strip_all hs) as [|h hs']; simpl; [done|].
  apply Forall_cons in Hhs' as [Hh Hhs'].
  rewrite step_columnheader by done.
  destruct (on_columnheader_finalize text _ h s Hinv) as (Hrow & Hcol & Hds).
  generalize dependent (on_columnheader text h s). intros s1 Hrow Hcol Hds.
  rewrite bind_Ok, loop_header_group by auto. simpl.
  unfold finalize at 1. simpl. by rewrite Hds.
Qed.

(** C3. After the last item a non-empty [current_row] is appended to
    [current_table] and that table to the output; with an empty
    [current_row] finalization appends nothing, so a trailing group of
    column headers never reaches the output. *)
Theorem finalization_rule (soup hs : list Tag) (s : State string) :
  loop text (pres_items soup) init = Ok s →
  Forall is_columnheader hs →
  (current_row s ≠ [] →
     extract_table_data_from_powerbi_html soup
     = Ok (datasets s ++ [current_table s ++ [current_row s]])) ∧
  (current_row s = [] →
     extract_table_data_from_powerbi_html soup = Ok (datasets s)) ∧
  extract_table_data_from_powerbi_html (soup ++ hs)
  = extract_table_data_from_powerbi_html soup.
Proof.
  intros Hs Hhs.
  assert (extract_table_data_from_powerbi_html soup = Ok (finalize s)) as Hout.
  { unfold extract_table_data_from_powerbi_html, extract_with. simpl. by rewrite Hs. }
  rewrite trailing_headers_dropped, Hout by done. unfold finalize.
  split; [|split].
  - intros Hrow%nonempty_true. by rewrite Hrow.
  - intros Hrow%nonempty_false. by rewrite Hrow.
  - done.
Qed.

Lemma finalization_rule_witness :
  let soup := [ColumnHeader "A"; GridCell (Some "0") "1"; GridCell (Some "1") "2"] in
  let hs := [ColumnHeader "B"; ColumnHeader "C"] in
  let s := mkState [] ["1"; "2"] [["A"]] [] in
  (current_row s ≠ [] →
     extract_table_data_from_powerbi_html soup
     = Ok (datasets s ++ [current_table s ++ [current_row s]])) ∧
  (current_row s = [] →
     extract_table_data_from_powerbi_html soup = Ok (datasets s)) ∧
  extract_table_data_from_powerbi_html (soup ++ hs)
  = extract_table_data_from_powerbi_html soup.
Proof.
  intros soup hs s. apply (finalization_rule soup hs s).
  - vm_compute. reflexivity.
  - repeat constructor.
Defined.

(** C10. No returned table is empty and no row of a returned table is
    empty. *)
Theorem no_empty_table_or_row (soup : list Tag) (out : list (list (list string))) :
  extract_table_data_from_powerbi_html soup = Ok out →
  Forall (λ tbl, tbl ≠ [] ∧ Forall (λ row, row ≠ []) tbl) out.
Proof.
  unfold extract_table_data_from_powerbi_html, extract_with. simpl.
  intros (s & Hs & [= <-])%bind_Ok_inv.
  apply loop_Invariant in Hs as [_ _ _ Hne [Hr1 Hr2]]; [|apply pres_items_has_role].
  apply Forall_and. unfold finalize.
  destruct (nonempty (current_row s)) eqn:Hrow; [|done].
  apply nonempty_true in Hrow. split; nonempties.
Qed.

Lemma no_empty_table_or_row_witness :
  Forall (λ tbl, tbl ≠ [] ∧ Forall (λ row : list string, row ≠ []) tbl)
    [[["Unit"]; ["Ward 1"; "3 cases"]]].
Proof.
  apply (no_empty_table_or_row
           [ColumnHeader "Unit"; RowHeader "Ward 1"; GridCell (Some "1") "3 cases"]).
  vm_compute. reflexivity.
Defined.

(** C5. The cells of the output, read table by table and row by row, form a
    subsequence of the texts of the input items in their original order. *)
Theorem order_preserved (soup : list Tag) (out : list (list (list string))) :
  extract_table_data_from_powerbi_html soup = Ok out →
  concat (concat out) `sublist_of` (text <$> pres_items soup).
Proof.
  unfold extract_table_data_from_powerbi_html, extract_with. simpl.
  intros (s & Hs & [= <-])%bind_Ok_inv.
  apply loop_Invariant in Hs as [Hex Htb Hcells _ _]; [|apply pres_items_has_role].
  rewrite <- Hcells. unfold finalize.
  destruct (current_row s) as [|c row]; simpl.
  - apply sublist_inserts_r. done.
  - destruct Hex as [->|?]; [|done]. simpl.
    repeat (progress (rewrite ?concat_app, ?app_nil_r; simpl)). done.
Qed.

Lemma order_preserved_witness :
  concat (concat [[["Unit"]; ["Ward 1"; "3 cases"]]])
    `sublist_of`
  (text <$> pres_items
     [ColumnHeader "Unit"; RowHeader "Ward 1"; GridCell (Some "1") "3 cases";
      ColumnHeader "Dropped"]).
Proof.
  apply (order_preserved
           [ColumnHeader "Unit"; RowHeader "Ward 1"; GridCell (Some "1") "3 cases";
            ColumnHeader "Dropped"]).
  vm_compute. reflexivity.
Defined.

(** ** Table boundaries *)

Section Tables.
Context {A : Type} (get_text : Tag → A).

(** In a state the loop can be in, a column header leaves exactly what
    finalization would return as the output so far, and an empty table. *)
Lemma on_columnheader_reachable t s :
  column_headers s = [] ∨ current_row s = [] →
  (current_row s = [] → current_table s = []) →
  on_columnheader get_text t s =
    {| column_headers := column_headers s ++ [get_text t];
       current_row := [];
       current_table := [];
       datasets := finalize s |}.
Proof.
  destruct s as [hs row tb ds]; simpl. intros Hex Htb.
  unfold on_columnheader, finalize; simpl. destruct row as [|c row]; simpl.
  - by rewrite (Htb eq_refl), andb_false_r.
  - destruct Hex as [->|?]; [|done]. simpl. by rewrite nonempty_snoc.
Qed.

(** A header group followed by the cells of one row. *)
Lemma loop_table hs r s :
  header_group hs → one_row r →
  column_headers s = [] →
  (current_row s = [] → current_table s = []) →
  loop get_text (hs ++ r) s =
    Ok {| column_headers := [];
          current_row := get_text <$> r;
          current_table := [get_text <$> hs];
          datasets := finalize s |}.
Proof.
  intros [Hne Hhs] [Hner Hr] Hcol Htb.
  destruct hs as [|h hs]; [done|]. destruct r as [|c r]; [done|].
  apply Forall_cons in Hhs as [Hh Hhs]. destruct Hr as [[Hc _] Hr].
  rewrite loop_app. simpl.
  rewrite step_columnheader, bind_Ok, on_columnheader_reachable by auto.
  rewrite loop_header_group by (simpl; auto). simpl.
  rewrite Hcol. simpl.
  rewrite step_gridcell by done. unfold on_gridcell, row_start. simpl.
  rewrite loop_one_row by done. done.
Qed.
End Tables.

Lemma header_group_strip_all hs : header_group hs → header_group (strip_all hs).
Proof.
  intros [Hne Hall]. split.
  - by destruct hs.
  - unfold strip_all. apply Forall_fmap. eapply Forall_impl; [exact Hall|].
    intros t. apply strip_attrs_columnheader.
Qed.

Lemma one_row_strip_all r : one_row r → one_row (strip_all r).
Proof.
  intros [Hne Hrow]. split; [by destruct r | by apply strip_all_one_row_from].
Qed.

Lemma header_group_has_role hs : header_group hs → Forall (λ t, has_role t = true) hs.
Proof. intros [_ Hall]. eapply Forall_impl; [exact Hall | apply is_columnheader_has_role]. Qed.

Lemma one_row_from_has_role n r : one_row_from n r → Forall (λ t, has_role t = true) r.
Proof.
  revert n. induction r as [|t r IH]; intros n; simpl; [done|].
  intros [[Hc _] Hr]. constructor; [by apply is_gridcell_has_role | by eapply IH].
Qed.

Lemma one_row_has_role r : one_row r → Forall (λ t, has_role t = true) r.
Proof. intros [_ Hr]. by eapply one_row_from_has_role. Qed.

(** Two header groups, each followed by one row. *)
Lemma two_tables (hs1 r1 hs2 r2 : list Tag) :
  header_group hs1 → one_row r1 → header_group hs2 → one_row r2 →
  extract_table_data_from_powerbi_html (hs1 ++ r1 ++ hs2 ++ r2)
  = Ok [[text <$> hs1; text <$> r1]; [text <$> hs2; text <$> r2]].
Proof.
  intros H1 R1 H2 R2.
  unfold extract_table_data_from_powerbi_html, extract_with. simpl.
  rewrite !pres_items_app.
  rewrite (pres_items_all hs1), (pres_items_all hs2)
    by (by apply header_group_has_role).
  rewrite (pres_items_all r1), (pres_items_all r2)
    by (by apply one_row_has_role).
  apply header_group_strip_all in H1, H2. apply one_row_strip_all in R1, R2.
  rewrite <- (strip_all_text hs1), <- (strip_all_text r1),
    <- (strip_all_text hs2), <- (strip_all_text r2).
  rewrite (app_assoc (strip_all hs1)), loop_app.
  rewrite loop_table by done. simpl.
  rewrite loop_table; simpl; [| done | done | done |].
  - unfold finalize. simpl.
    destruct R1 as [Hne _], R2 as [Hne2 _].
    by destruct (strip_all r1), (strip_all r2).
  - destruct R1 as [Hne _]. by destruct (strip_all r1).
Qed.

(** C4. A column header first flushes a non-empty [current_row] into
    [current_table]; the table boundary then fires exactly when
    [column_headers] is empty and [current_table] is not: the table goes to
    the output and a fresh one is started; the header text always joins
    [column_headers]. Hence a header group and a row followed by a second
    header group and row give two tables, each led by its own header row. *)
Theorem column_header_boundary
    (t : Tag) (s : State string) (hs1 r1 hs2 r2 : list Tag) :
  is_columnheader t →
  header_group hs1 → one_row r1 → header_group hs2 → one_row r2 →
  let flushed :=
    current_table s ++ (if nonempty (current_row s) then [current_row s] else []) in
  let boundary := bool_decide (column_headers s = [] ∧ flushed ≠ []) in
  step text t s =
    Ok {| column_headers := column_headers s ++ [text t];
          current_row := [];
          current_table := if boundary then [] else flushed;
          datasets := if boundary then datasets s ++ [flushed] else datasets s |}
  ∧ extract_table_data_from_powerbi_html (hs1 ++ r1 ++ hs2 ++ r2)
    = Ok [[text <$> hs1; text <$> r1]; [text <$> hs2; text <$> r2]].
Proof.
  intros Ht H1 R1 H2 R2. split; [|by apply two_tables].
  rewrite step_columnheader by done. f_equal.
  destruct s as [hs row tb ds]. unfold on_columnheader. simpl.
  destruct row as [|c row]; simpl.
  - rewrite app_nil_r.
    destruct hs as [|h hs], tb as [|r tb]; simpl;
      repeat case_bool_decide; (done || naive_solver).
  - rewrite nonempty_snoc.
    destruct hs as [|h hs]; simpl; repeat case_bool_decide; try done;
      try naive_solver.
    exfalso. eauto using snoc_neq_nil.
Qed.

Lemma column_header_boundary_witness :
  step text (ColumnHeader "C") (mkState [] ["1"; "2"] [["A"; "B"]] [])
  = Ok (mkState ["C"] [] [] [[["A"; "B"]; ["1"; "2"]]])
  ∧ extract_table_data_from_powerbi_html
      [ColumnHeader "A"; ColumnHeader "B";
       GridCell (Some "0") "1"; GridCell (Some "1") "2";
       ColumnHeader "C"; ColumnHeader "D";
       GridCell (Some "0") "3"; GridCell (Some "1") "4"]
    = Ok [[["A"; "B"]; ["1"; "2"]]; [["C"; "D"]; ["3"; "4"]]].
Proof.
  apply (column_header_boundary
           (ColumnHeader "C") (mkState [] ["1"; "2"] [["A"; "B"]] [])
           [ColumnHeader "A"; ColumnHeader "B"]
           [GridCell (Some "0") "1"; GridCell (Some "1") "2"]
           [ColumnHeader "C"; ColumnHeader "D"]
           [GridCell (Some "0") "3"; GridCell (Some "1") "4"]).
  - reflexivity.
  - split; [done | by repeat constructor].
  - split; [done|]. simpl. unfold continues_row. repeat split; (reflexivity || lia).
  - split; [done | by repeat constructor].
  - split; [done|]. simpl. unfold continues_row. repeat split; (reflexivity || lia).
Defined.

(** ** Row headers *)

Lemma finalize_Traced s :
  Traced s → Forall (Forall row_header_first) (finalize s).
Proof.
  intros [Hh Hr Ht Hd]. unfold finalize.
  destruct (nonempty (current_row s)); [|done].
  rewrite Forall_app, Forall_singleton, Forall_app, Forall_singleton. auto.
Qed.

Lemma extract_traced_rows soup traced :
  extract_traced soup = Ok traced → Forall (Forall row_header_first) traced.
Proof.
  unfold extract_traced, extract_with. simpl.
  intros (s & Hs & [= <-])%bind_Ok_inv.
  apply finalize_Traced. eapply loop_Traced; [apply pres_items_has_role | done].
Qed.

(** No row header is lost: each one is a cell of the traced output. *)
Lemma extract_traced_rowheaders soup traced t :
  extract_traced soup = Ok traced →
  t ∈ pres_items soup → is_rowheader t → t ∈ concat (concat traced).
Proof.
  unfold extract_traced, extract_with. simpl.
  intros (s & Hs & [= <-])%bind_Ok_inv Ht Hrh.
  pose proof (loop_Traced _ _ (pres_items_has_role soup) Hs) as [Hh _ _ _].
  apply loop_Invariant in Hs as [Hex Htb Hcells _ _]; [|apply pres_items_has_role].
  rewrite list_fmap_id in Hcells. rewrite <- Hcells in Ht. unfold finalize.
  destruct (current_row s) as [|c row]; simpl in *.
  - rewrite (Htb eq_refl), app_nil_r in Ht. simpl in Ht.
    apply elem_of_app in Ht as [Ht|Ht]; [done|].
    rewrite Forall_forall in Hh. by destruct (Hh t).
  - destruct Hex as [Hc|?]; [|done]. rewrite Hc in Ht. simpl in Ht.
    repeat (progress (rewrite ?concat_app, ?app_nil_r; simpl)). done.
Qed.

(** C7. In every row of every output table a row header can only be
    cell 0, so a row started by a row header has that header's text as its
    cell 0; and every row header of the input starts such a row. *)
Theorem row_header_first_cell
    (soup : list Tag) (traced : list (list (list Tag)))
    (j k : nat) (tbl : list (list Tag)) (row : list Tag) :
  extract_traced soup = Ok traced →
  traced !! j = Some tbl → tbl !! k = Some row →
  (∃ out otbl,
     extract_table_data_from_powerbi_html soup = Ok out ∧
     out !! j = Some otbl ∧ otbl !! k = Some (text <$> row) ∧
     ∀ i t, row !! i = Some t → is_rowheader t →
       i = 0 ∧ (text <$> row) !! 0 = Some (text t)) ∧
  (∀ t, t ∈ pres_items soup → is_rowheader t →
     ∃ tbl' row', tbl' ∈ traced ∧ row' ∈ tbl' ∧ row' !! 0 = Some t).
Proof.
  intros Htr Hj Hk.
  pose proof (extract_traced_rows _ _ Htr) as Hrows.
  rewrite Forall_forall in Hrows. split.
  - exists (map_dataset text traced), (map_table text tbl).
    split; [by rewrite extract_traced_text, Htr|].
    split; [unfold map_dataset; by rewrite list_lookup_fmap, Hj|].
    split; [unfold map_table; by rewrite list_lookup_fmap, Hk|].
    intros i t Hi Hrh.
    assert (row_header_first row) as Hrow.
    { eapply (proj1 (Forall_forall _ _) (Hrows tbl _)).
      by eapply list_elem_of_lookup_2. }
    pose proof (Hrow i t Hi Hrh) as ->.
    by rewrite list_lookup_fmap, Hi.
  - intros t Ht Hrh.
    apply (extract_traced_rowheaders _ _ _ Htr) in Ht; [|done].
    apply elem_of_concat in Ht as (row' & Ht & Hrow').
    apply elem_of_concat in Hrow' as (tbl' & Hrow' & Htbl').
    exists tbl', row'. split; [done|]. split; [done|].
    apply list_elem_of_lookup in Ht as [i Hi].
    assert (row_header_first row') as Hrf.
    { by eapply (proj1 (Forall_forall _ _) (Hrows tbl' Htbl')). }
    by rewrite (Hrf i t Hi Hrh) in Hi.
  Unshelve. by eapply list_elem_of_lookup_2.
Qed.

Lemma row_header_first_cell_witness :
  let soup := [ColumnHeader "Unit"; RowHeader "Ward 1"; GridCell (Some "1") "3 cases"] in
  let row := [RowHeader "Ward 1"; GridCell (Some "1") "3 cases"] in
  let traced := [[[ColumnHeader "Unit"]; row]] in
  (∃ out otbl,
     extract_table_data_from_powerbi_html soup = Ok out ∧
     out !! 0 = Some otbl ∧ otbl !! 1 = Some (text <$> row) ∧
     ∀ i t, row !! i = Some t → is_rowheader t →
       i = 0 ∧ (text <$> row) !! 0 = Some (text t)) ∧
  (∀ t, t ∈ pres_items soup → is_rowheader t →
     ∃ tbl' row', tbl' ∈ traced ∧ row' ∈ tbl' ∧ row' !! 0 = Some t).
Proof.
  intros soup row traced.
  apply (row_header_first_cell soup traced 0 1 [[ColumnHeader "Unit"]; row] row).
  - vm_compute. reflexivity.
  - reflexivity.
  - reflexivity.
Defined.

(** ** Preprocessing *)

Lemma grid_item_strip_attrs t : grid_item (strip_attrs t) = grid_item t.
Proof.
  unfold grid_item. by rewrite strip_attrs_role, strip_attrs_column_index.
Qed.

(** C9. Stripping the presentation attributes is idempotent: a second pass
    changes no element, hence yields the same sequence of grid items as one
    pass; role, text and column index are what survives of an element. *)
Theorem strip_idempotent (soup : list Tag) :
  strip_all (strip_all soup) = strip_all soup ∧
  grid_items (strip_all (strip_all soup)) = grid_items (strip_all soup) ∧
  grid_items (strip_all soup) = grid_items soup.
Proof.
  split; [apply strip_all_idemp|]. split; [by rewrite strip_all_idemp|].
  unfold grid_items. rewrite find_all_strip_all. unfold strip_all.
  rewrite <- list_fmap_compose. apply list_fmap_ext.
  intros _ t _. apply grid_item_strip_attrs.
Qed.

(** ** The CSV rendering of a dataset *)

Lemma string_app_cons x (a b : string) : String x a +:+ b = String x (a +:+ b).
Proof. reflexivity. Qed.

Lemma string_app_assoc (a b c : string) : (a +:+ b) +:+ c = a +:+ (b +:+ c).
Proof. induction a as [|x a IH]; [done|]. rewrite !string_app_cons. by f_equal. Qed.

Lemma cell_field_id cell : cell_field cell = cell.
Proof. by destruct cell. Qed.

Lemma cell_fields_id (row : list string) : cell_field <$> row = row.
Proof.
  induction row as [|cell row IH]; [done|].
  by rewrite fmap_cons, cell_field_id, IH.
Qed.

Lemma append_rows_spec table output :
  append_rows table output = output ++ (csv_row <$> table).
Proof.
  revert output. induction table as [|row table IH]; intros output; simpl.
  - by rewrite app_nil_r.
  - by rewrite IH, <- app_assoc.
Qed.

Lemma format_tables_spec i datasets output :
  format_tables i datasets output
  = output ++ concat (imap (λ k, table_block (i + k)) datasets).
Proof.
  revert i output. induction datasets as [|table datasets IH]; intros i output; simpl.
  - by rewrite app_nil_r.
  - rewrite IH, append_rows_spec, Nat.add_0_r. unfold table_block at 2.
    rewrite <- !app_assoc. simpl. do 3 f_equal.
    f_equal. f_equal.
    apply imap_ext. intros k t _. simpl. unfold table_block.
    by rewrite Nat.add_succ_r.
Qed.

Lemma length_concat_blocks i (datasets : list (list (list string))) :
  length (concat (imap (λ k, table_block (i + k)) datasets))
  = 2 * length datasets + length (concat datasets).
Proof.
  revert i. induction datasets as [|table datasets IH]; intros i; [done|].
  rewrite imap_cons. simpl.
  rewrite !length_app, length_fmap. simpl.
  rewrite (imap_ext _ (λ k, table_block (S i + k))), IH; [lia|].
  intros k t _. simpl. f_equal. lia.
Qed.

Lemma format_datasets_as_csv_blocks datasets :
  format_datasets_as_csv datasets
  = String.concat NL (concat (imap table_block datasets)).
Proof. unfold format_datasets_as_csv. by rewrite format_tables_spec. Qed.

(** A row is rendered as its cells joined by commas: every text cell goes
    out unchanged, an empty cell as an empty field. *)
Lemma csv_row_cells (row : list string) :
  csv_row row = String.concat "," row.
Proof. unfold csv_row. by rewrite cell_fields_id. Qed.

(** X1. The text is the newline-join of one block of entries per table, in
    order: a banner carrying the table's number counted from 1, one entry per
    row holding the row's cells unchanged and joined by commas, and an empty
    entry; so there are two entries per table beyond the rows, and only an
    empty dataset gives the empty text. *)
Theorem csv_blocks (datasets : list (list (list string))) :
  format_datasets_as_csv datasets
  = String.concat NL
      (concat (imap (λ i table,
                       table_banner i :: (String.concat "," <$> table) ++ [""])
                    datasets))
  ∧ length (format_tables 0 datasets [])
    = 2 * length datasets + length (concat datasets)
  ∧ (format_datasets_as_csv datasets = "" ↔ datasets = []).
Proof.
  split; [|split].
  - rewrite format_datasets_as_csv_blocks. do 2 f_equal.
    apply imap_ext. intros i table _. unfold table_block. do 2 f_equal.
    apply list_fmap_ext. intros _ row _. apply csv_row_cells.
  - rewrite format_tables_spec. apply (length_concat_blocks 0).
  - rewrite format_datasets_as_csv_blocks. split; [|by intros ->].
    destruct datasets as [|table datasets]; [done|].
    rewrite imap_cons. simpl.
    destruct (_ ++ _); unfold table_banner, NL;
      rewrite ?string_app_cons; discriminate.
Qed.

Lemma string_concat_cons sep x (l : list string) :
  l ≠ [] → String.concat sep (x :: l) = x +:+ sep +:+ String.concat sep l.
Proof. by destruct l. Qed.

Lemma csv_row_comma (before after : list string) (a b : string) :
  csv_row (before ++ [a +:+ "," +:+ b] ++ after)
  = csv_row (before ++ [a; b] ++ after).
Proof.
  rewrite !csv_row_cells. induction before as [|x before IH].
  - simpl. destruct after as [|y after]; [done|].
    by rewrite !string_app_assoc.
  - rewrite <- !app_comm_cons.
    rewrite !(string_concat_cons "," x) by (by destruct before).
    f_equal. f_equal. exact IH.
Qed.

(** X2. Nothing is quoted or escaped: a cell holding a comma is rendered
    exactly like two neighbouring cells, so two different datasets can have
    the same text. *)
Theorem csv_comma_not_escaped
    (tables_before tables_after : list (list (list string)))
    (rows_before rows_after : list (list string))
    (before after : list string) (a b : string) :
  format_datasets_as_csv
    (tables_before
       ++ [rows_before ++ [before ++ [a +:+ "," +:+ b] ++ after] ++ rows_after]
       ++ tables_after)
  = format_datasets_as_csv
      (tables_before
         ++ [rows_before ++ [before ++ [a; b] ++ after] ++ rows_after]
         ++ tables_after).
Proof.
  rewrite !format_datasets_as_csv_blocks. do 2 f_equal.
  rewrite !imap_app. simpl. do 2 f_equal. unfold table_block.
  rewrite !fmap_app, !fmap_cons.
  pose proof (csv_row_comma before after a b) as Hrow. simpl in Hrow.
  by rewrite Hrow.
Qed.

(** ** Debug output *)

Section DebugFacts.
Context (debug : bool).

Lemma on_columnheader_debug_fst t s stdout :
  (on_columnheader_debug debug t s stdout).1 = on_columnheader text t s.
Proof.
  unfold on_columnheader_debug, on_columnheader, flush_row_debug, close_table_debug.
  destruct (nonempty (current_row s)); simpl;
    by destruct (negb _ && _).
Qed.

Lemma on_rowheader_debug_fst t s stdout :
  (on_rowheader_debug debug t s stdout).1 = on_rowheader text t s.
Proof.
  unfold on_rowheader_debug, on_rowheader, flush_row_debug, flush_headers_debug.
  destruct (nonempty (current_row s)); simpl;
    by destruct (nonempty (column_headers _)).
Qed.

Lemma on_gridcell_debug_fst t s stdout :
  fst <$> on_gridcell_debug debug t s stdout = on_gridcell text t s.
Proof.
  unfold on_gridcell_debug, on_gridcell, flush_row_debug, flush_headers_debug.
  destruct (nonempty (column_headers s)); simpl;
    (destruct (row_start t _) as [[|]|e]; by simpl).
Qed.

Lemma step_debug_fst t st :
  fst <$> step_debug debug t st = step text t st.1.
Proof.
  unfold step_debug, step.
  destruct (subscript (attrs t) "role") as [role|e]; simpl; [|done].
  destruct (contains "columnheader" role), (contains "rowheader" role),
    (contains "gridcell" role); simpl;
    rewrite ?on_gridcell_debug_fst, ?on_rowheader_debug_fst,
      ?on_columnheader_debug_fst; done.
Qed.

Lemma loop_debug_fst pres st :
  fst <$> loop_debug debug pres st = loop text pres st.1.
Proof.
  revert st. induction pres as [|t pres IH]; intros st; simpl; [done|].
  rewrite <- step_debug_fst.
  destruct (step_debug debug t st) as [st'|e]; simpl; [apply IH | done].
Qed.

Lemma extract_debug_fst soup :
  fst <$> extract_debug debug soup = extract_table_data_from_powerbi_html soup.
Proof.
  unfold extract_debug, extract_table_data_from_powerbi_html, extract_with. simpl.
  rewrite <- (loop_debug_fst _ (init, [])).
  destruct (loop_debug debug (pres_items soup) (init, [])) as [[s stdout]|e]; simpl;
    [|done].
  unfold finalize_debug, finalize. simpl. by destruct (nonempty (current_row s)).
Qed.
End DebugFacts.

(** With [debug] off nothing is written. *)
Lemma step_debug_off t s stdout st' :
  step_debug false t (s, stdout) = Ok st' → st'.2 = stdout.
Proof.
  unfold step_debug.
  destruct (subscript (attrs t) "role") as [role|e]; simpl; [|done].
  assert (∀ s0 out, (on_columnheader_debug false t s0 out).2 = out) as Hc.
  { intros s0 out. unfold on_columnheader_debug, flush_row_debug, close_table_debug.
    destruct (nonempty (current_row s0)); simpl; by destruct (negb _ && _). }
  assert (∀ s0 out, (on_rowheader_debug false t s0 out).2 = out) as Hr.
  { intros s0 out. unfold on_rowheader_debug, flush_row_debug, flush_headers_debug.
    destruct (nonempty (current_row s0)); simpl;
      by destruct (nonempty (column_headers _)). }
  assert (∀ s0 out st0, on_gridcell_debug false t s0 out = Ok st0 → st0.2 = out) as Hg.
  { intros s0 out st0. unfold on_gridcell_debug, flush_row_debug, flush_headers_debug.
    destruct (nonempty (column_headers s0)); simpl;
      (destruct (row_start t _) as [[|]|e]; simpl; [| |done]); by intros [= <-]. }
  destruct (contains "columnheader" role), (contains "rowheader" role),
    (contains "gridcell" role); simpl;
    first [ intros ->%Hg | intros [= <-] ]; simpl; rewrite ?Hr, ?Hc; done.
Qed.

Lemma loop_debug_off pres s stdout st' :
  loop_debug false pres (s, stdout) = Ok st' → st'.2 = stdout.
Proof.
  revert s stdout. induction pres as [|t pres IH]; intros s stdout; simpl.
  - by intros [= <-].
  - intros ([s1 out1] & Hstep & Hloop)%bind_Ok_inv.
    apply step_debug_off in Hstep. simpl in Hstep. subst out1. by eapply IH.
Qed.

Lemma debug_trace_row closed current (row : list string) :
  debug_trace closed current ++ [PrintedRow row] = debug_trace closed (current ++ [row]).
Proof. unfold debug_trace. by rewrite fmap_app, <- app_assoc. Qed.

Lemma debug_trace_close closed (current : list (list string)) :
  debug_trace closed current ++ [PrintedLine "---- New Table ----"]
  = debug_trace (closed ++ [current]) [].
Proof.
  unfold debug_trace. rewrite fmap_app, concat_app. simpl.
  by rewrite !app_nil_r, <- app_assoc.
Qed.

Lemma flush_row_debug_traces s stdout :
  traces (s, stdout) → traces (flush_row_debug true s stdout).
Proof. unfold traces. simpl. intros ->. apply debug_trace_row. Qed.

Lemma flush_headers_debug_traces s stdout :
  traces (s, stdout) → traces (flush_headers_debug true s stdout).
Proof. unfold traces. simpl. intros ->. apply debug_trace_row. Qed.

Lemma close_table_debug_traces s stdout :
  traces (s, stdout) → traces (close_table_debug true s stdout).
Proof. unfold traces. simpl. intros ->. apply debug_trace_close. Qed.

Lemma on_columnheader_debug_traces t s stdout :
  traces (s, stdout) → traces (on_columnheader_debug true t s stdout).
Proof.
  intros H. unfold on_columnheader_debug.
  destruct (nonempty (current_row s)).
  - apply flush_row_debug_traces in H.
    destruct (flush_row_debug true s stdout) as [s1 out1].
    destruct (negb _ && _); [apply close_table_debug_traces in H|]; exact H.
  - destruct (negb _ && _); [apply close_table_debug_traces in H|]; exact H.
Qed.

Lemma on_rowheader_debug_traces t s stdout :
  traces (s, stdout) → traces (on_rowheader_debug true t s stdout).
Proof.
  intros H. unfold on_rowheader_debug.
  destruct (nonempty (current_row s)).
  - apply flush_row_debug_traces in H.
    destruct (flush_row_debug true s stdout) as [s1 out1].
    destruct (nonempty _); [apply flush_headers_debug_traces in H|]; exact H.
  - destruct (nonempty _); [apply flush_headers_debug_traces in H|]; exact H.
Qed.

Lemma on_gridcell_debug_traces t s stdout st' :
  traces (s, stdout) → on_gridcell_debug true t s stdout = Ok st' → traces st'.
Proof.
  intros H. unfold on_gridcell_debug.
  destruct (nonempty (column_headers s)).
  - apply flush_headers_debug_traces in H.
    destruct (flush_headers_debug true s stdout) as [s1 out1].
    destruct (row_start t s1) as [[|]|e]; simpl; [| |done]; intros [= <-];
      [apply flush_row_debug_traces in H|]; exact H.
  - destruct (row_start t s) as [[|]|e]; simpl; [| |done]; intros [= <-];
      [apply flush_row_debug_traces in H|]; exact H.
Qed.

Lemma step_debug_traces t st st' :
  traces st → step_debug true t st = Ok st' → traces st'.
Proof.
  intros H. unfold step_debug.
  destruct (subscript (attrs t) "role") as [role|e]; simpl; [|done].
  assert (traces (if contains "columnheader" role
                  then on_columnheader_debug true t st.1 st.2 else st)) as H1.
  { destruct (contains "columnheader" role); [|done].
    destruct st. by apply on_columnheader_debug_traces. }
  revert H1. generalize (if contains "columnheader" role
                         then on_columnheader_debug true t st.1 st.2 else st).
  intros st1 H1.
  assert (traces (if contains "rowheader" role
                  then on_rowheader_debug true t st1.1 st1.2 else st1)) as H2.
  { destruct (contains "rowheader" role); [|done].
    destruct st1. by apply on_rowheader_debug_traces. }
  revert H2. generalize (if contains "rowheader" role
                         then on_rowheader_debug true t st1.1 st1.2 else st1).
  intros st2 H2.
  destruct (contains "gridcell" role); [|by intros [= <-]].
  destruct st2. by apply on_gridcell_debug_traces.
Qed.

Lemma loop_debug_traces pres st st' :
  traces st → loop_debug true pres st = Ok st' → traces st'.
Proof.
  revert st. induction pres as [|t pres IH]; intros st H; simpl.
  - by intros [= <-].
  - intros (st1 & Hstep & Hloop)%bind_Ok_inv.
    eapply IH; [|exact Hloop]. by eapply step_debug_traces.
Qed.

Lemma printed_rows_app out1 out2 :
  printed_rows (out1 ++ out2) = printed_rows out1 ++ printed_rows out2.
Proof. apply omap_app. Qed.

Lemma printed_rows_rows (tbl : list (list string)) :
  printed_rows (PrintedRow <$> tbl) = tbl.
Proof. induction tbl as [|row tbl IH]; [done|]. simpl. by f_equal. Qed.

Lemma printed_rows_debug_trace closed current :
  printed_rows (debug_trace closed current) = concat closed ++ current.
Proof.
  unfold debug_trace. rewrite printed_rows_app, printed_rows_rows. f_equal.
  induction closed as [|tbl closed IH]; [done|].
  rewrite fmap_cons, !concat_cons, !printed_rows_app, printed_rows_rows, IH.
  simpl. by rewrite app_nil_r.
Qed.

(** X3. The debug flag only adds output: with either setting the function
    returns what it returns without the prints, and with [debug] off, as the
    module sets it, nothing at all is written. *)
Theorem debug_only_prints (debug : bool) (soup : list Tag) :
  fst <$> extract_debug debug soup = extract_table_data_from_powerbi_html soup ∧
  extract_debug false soup
  = (λ out, (out, [])) <$> extract_table_data_from_powerbi_html soup.
Proof.
  split; [apply extract_debug_fst|].
  rewrite <- (extract_debug_fst false). unfold extract_debug. simpl.
  destruct (loop_debug false (pres_items soup) (init, [])) as [[s stdout]|e] eqn:E;
    simpl; [|done].
  apply loop_debug_off in E. simpl in E. subst stdout.
  unfold finalize_debug. simpl. by destruct (nonempty (current_row s)).
Qed.

(** X4. With [debug] on, the rows written are exactly the rows of the
    returned dataset, in order; a line [---- New Table ----] follows the rows
    of every table that a later column header closed, and none follows the
    table added after the last item. *)
Theorem debug_trace_lists_output
    (soup : list Tag) (out : list (list (list string))) (stdout : list printed) :
  extract_debug true soup = Ok (out, stdout) →
  printed_rows stdout = concat out ∧
  ∃ closed current,
    stdout = debug_trace closed current ∧
    (out = closed ∧ current = [] ∨ out = closed ++ [current] ∧ current ≠ []).
Proof.
  unfold extract_debug. simpl.
  intros ([s out0] & Hloop & Hfin)%bind_Ok_inv.
  pose proof (loop_debug_traces _ (init, []) _ eq_refl Hloop) as Htr.
  pose proof (loop_debug_fst true (pres_items soup) (init, [])) as Hfst.
  rewrite Hloop in Hfst. simpl in Hfst. symmetry in Hfst.
  apply loop_Invariant in Hfst as [_ Htb _ _ _]; [|apply pres_items_has_role].
  unfold traces in Htr. simpl in Htr. subst out0.
  unfold finalize_debug in Hfin. simpl in Hfin.
  destruct (current_row s) as [|c row]; simpl in Hfin; injection Hfin as <- <-.
  - rewrite (Htb eq_refl). split.
    + by rewrite printed_rows_debug_trace, app_nil_r.
    + exists (datasets s), []. split; [done | by left].
  - rewrite debug_trace_row. split.
    + rewrite printed_rows_debug_trace, concat_app. simpl. by rewrite app_nil_r.
    + exists (datasets s), (current_table s ++ [c :: row]).
      split; [done|]. right. split; [done | apply snoc_neq_nil].
Qed.

Lemma debug_trace_lists_output_witness :
  let stdout := [PrintedRow ["A"]; PrintedRow ["1"; "2"];
                 PrintedLine "---- New Table ----";
                 PrintedRow ["B"]; PrintedRow ["3"]] in
  let out := [[["A"]; ["1"; "2"]]; [["B"]; ["3"]]] in
  printed_rows stdout = concat out ∧
  ∃ closed current,
    stdout = debug_trace closed current ∧
    (out = closed ∧ current = [] ∨ out = closed ++ [current] ∧ current ≠ []).
Proof.
  intros stdout out.
  apply (debug_trace_lists_output
           [ColumnHeader "A"; GridCell (Some "0") "1"; GridCell (Some "1") "2";
            ColumnHeader "B"; GridCell (Some "0") "3"] out stdout).
  vm_compute. reflexivity.
Defined.

(** ** The page event handlers *)

Lemma handle_all_snoc events e g :
  handle_all (events ++ [e]) g = handle (handle_all events g) e.
Proof. unfold handle_all. by rewrite foldl_snoc. Qed.

(** X5. After any sequence of page events the counter has grown by the
    number of [domcontentloaded] events, the navigation flag is set exactly
    if it was set before or a [framenavigated] event occurred (it is never
    cleared), the debug flag is untouched, and with [debug] off nothing is
    written. *)
Theorem handlers_track_events (events : list page_event) (g : Globals) :
  let g' := handle_all events g in
  dcl_event_count g' = dcl_event_count g + length (filter (λ e, is_dcl e = true) events) ∧
  didFrameNavigate g' = didFrameNavigate g || existsb (λ e, negb (is_dcl e)) events ∧
  g_debug g' = g_debug g ∧
  (g_debug g = false → g_stdout g' = g_stdout g).
Proof.
  induction events as [|e events IH] using rev_ind; simpl.
  - rewrite orb_false_r. unfold handle_all. simpl. repeat split; lia.
  - rewrite handle_all_snoc. destruct IH as (Hc & Hf & Hd & Ho).
    rewrite filter_app, length_app, existsb_app.
    destruct e as [|url]; simpl.
    + rewrite Hc, Hf, Hd, orb_false_r.
      repeat split; [lia|]. intros Hoff. rewrite Hoff. simpl. by apply Ho.
    + rewrite Hc, Hd, !orb_true_r. repeat split; [lia|].
      intros Hoff. rewrite Hoff. simpl. by apply Ho.
Qed.

(** ** The retry wrapper *)

Section RetryFacts.
Context {V E : Type} (run : nat → outcome V E).

Lemma raised_between_step a k exc :
  run a = Raised exc → raised_between run (S a) k → raised_between run a k.
Proof.
  intros Ha Hk j Haj Hjk. destruct (decide (j = a)) as [->|Hne]; [eauto|].
  apply Hk; lia.
Qed.

Lemma attempts_sound a n r :
  a + n = r + 1 →
  match attempts run (Z.of_nat r) (seq a n) with
  | Result v => ∃ k, (a ≤ k ≤ r)%nat ∧ run k = Returned v ∧ raised_between run a k
  | Propagated exc =>
      ∃ k, (a ≤ k ≤ r)%nat ∧ raised_between run a k ∧
           (run k = RaisedBase exc ∨ (run k = Raised exc ∧ k = r))
  | ReturnedNone => n = 0
  end.
Proof.
  revert a. induction n as [|n IH]; intros a Han; simpl; [done|].
  assert (raised_between run a a) as Haa by (intros j ? ?; lia).
  destruct (run a) as [v|exc|exc] eqn:Ha.
  - exists a. split; [lia | done].
  - case_bool_decide as Har.
    + exists a. split; [lia|]. split; [done|]. right. split; [done | lia].
    + specialize (IH (S a) ltac:(lia)).
      destruct (attempts run (Z.of_nat r) (seq (S a) n)) as [v|exc'|].
      * destruct IH as (k & Hk & Hv & Hr). exists k.
        split; [lia|]. split; [done|]. by eapply raised_between_step.
      * destruct IH as (k & Hk & Hr & Hc). exists k.
        split; [lia|]. split; [by eapply raised_between_step | done].
      * lia.
  - exists a. split; [lia|]. split; [done | by left].
Qed.

Lemma attempts_first_return a n r k v :
  a + n = r + 1 → (a ≤ k ≤ r)%nat →
  run k = Returned v → raised_between run a k →
  attempts run (Z.of_nat r) (seq a n) = Result v.
Proof.
  revert a. induction n as [|n IH]; intros a Han Hk Hv Hr; simpl; [lia|].
  destruct (decide (a = k)) as [->|Hne].
  - by rewrite Hv.
  - destruct (Hr a) as [exc Ha]; [lia..|]. rewrite Ha.
    rewrite bool_decide_eq_false_2 by lia.
    apply IH; [lia | lia | done |]. intros j ? ?. apply Hr; lia.
Qed.
End RetryFacts.

(** X6. What [call_with_retry] does tells what the agent did: a result is
    the first return, after attempts that all raised an [Exception], within
    [retries + 1] attempts; an exception let through is either one that
    [except Exception] does not catch or the [Exception] of attempt number
    [retries], again after failed attempts only; and [None] comes back only
    for negative [retries], when the agent is not run at all. *)
Theorem call_with_retry_sound {V E : Type} (run : nat → outcome V E) (retries : Z) :
  match call_with_retry run retries with
  | Result v =>
      ∃ k, (Z.of_nat k ≤ retries)%Z ∧ run k = Returned v ∧ all_raised_before run k
  | Propagated exc =>
      ∃ k, (Z.of_nat k ≤ retries)%Z ∧ all_raised_before run k ∧
           (run k = RaisedBase exc ∨ (run k = Raised exc ∧ Z.of_nat k = retries))
  | ReturnedNone => (retries < 0)%Z
  end.
Proof.
  unfold call_with_retry. destruct (decide (retries < 0)%Z) as [Hneg|Hpos].
  - replace (Z.to_nat (retries + 1)) with 0 by lia. done.
  - pose proof (attempts_sound run 0 (Z.to_nat retries + 1) (Z.to_nat retries) eq_refl)
      as H.
    replace (Z.of_nat (Z.to_nat retries)) with retries in H by lia.
    replace (Z.to_nat (retries + 1)) with (Z.to_nat retries + 1) by lia.
    destruct (attempts run retries (seq 0 (Z.to_nat retries + 1))) as [v|exc|].
    + destruct H as (k & Hk & Hv & Hr). exists k.
      split; [lia|]. split; [done|]. intros j Hj. apply Hr; lia.
    + destruct H as (k & Hk & Hr & Hc). exists k.
      split; [lia|]. split; [intros j Hj; apply Hr; lia|].
      destruct Hc as [?|[? ->]]; [by left | right; split; [done | lia]].
    + lia.
Qed.

(** X7. The first return within [retries + 1] attempts is the result,
    however many attempts before it raised an [Exception]. *)
Theorem call_with_retry_first_return
    {V E : Type} (run : nat → outcome V E) (retries : Z) (k : nat) (v : V) :
  (Z.of_nat k ≤ retries)%Z →
  run k = Returned v →
  all_raised_before run k →
  call_with_retry run retries = Result v.
Proof.
  intros Hk Hv Hr. unfold call_with_retry.
  replace (Z.to_nat (retries + 1)) with (Z.to_nat retries + 1) by lia.
  replace retries with (Z.of_nat (Z.to_nat retries)) at 1 by lia.
  apply (attempts_first_return run 0 _ _ k v); [done | lia | done |].
  intros j _ Hj. by apply Hr.
Qed.

Lemma call_with_retry_first_return_witness :
  call_with_retry
    (λ attempt, if decide (attempt = 2) then Returned "data" else Raised "timeout") 3
  = Result "data".
Proof.
  apply (call_with_retry_first_return _ 3 2 "data").
  - lia.
  - reflexivity.
  - intros j Hj. exists "timeout". destruct j as [|[|j]]; [reflexivity..|lia].
Defined.

(** ** Substrings and intent detection *)

Lemma prefix_nil (s : string) : String.prefix "" s = true.
Proof. by destruct s. Qed.

Lemma prefix_app (a b : string) : String.prefix a (a +:+ b) = true.
Proof.
  induction a as [|c a IH]; [apply prefix_nil|].
  rewrite string_app_cons. simpl. by destruct (Ascii.ascii_dec c c).
Qed.

Lemma prefix_inv (a b : string) :
  String.prefix a b = true → ∃ post, b = a +:+ post.
Proof.
  revert b. induction a as [|c a IH]; intros b; [by exists b|].
  destruct b as [|d b]; simpl; [done|].
  destruct (Ascii.ascii_dec c d) as [->|]; [|done].
  intros (post & ->)%IH. by exists post.
Qed.

Lemma contains_unfold needle hay :
  contains needle hay =
    String.prefix needle hay ||
    match hay with
    | EmptyString => false
    | String _ hay' => contains needle hay'
    end.
Proof. by destruct hay. Qed.

(** [needle in hay] holds exactly when [hay] is [needle] with some text
    before and after it. *)
Lemma contains_spec needle hay :
  contains needle hay = true ↔ ∃ pre post, hay = pre +:+ needle +:+ post.
Proof.
  split.
  - induction hay as [|c hay IH]; rewrite contains_unfold;
      intros [Hp|Hc]%orb_true_iff; try done.
    + apply prefix_inv in Hp as [post ->]. by exists "", post.
    + apply prefix_inv in Hp as [post Hp]. by exists "", post.
    + destruct (IH Hc) as (pre & post & ->). by exists (String c pre), post.
  - intros (pre & post & ->). induction pre as [|c pre IH].
    + rewrite contains_unfold.
      change ("" +:+ needle +:+ post) with (needle +:+ post).
      by rewrite prefix_app.
    + rewrite string_app_cons, contains_unfold, IH. apply orb_true_r.
Qed.

Lemma contains_context needle hay pre post :
  contains needle hay = true → contains needle (pre +:+ hay +:+ post) = true.
Proof.
  intros (pre' & post' & ->)%contains_spec. apply contains_spec.
  exists (pre +:+ pre'), (post' +:+ post). by rewrite !string_app_assoc.
Qed.

Lemma lower_app (a b : string) : lower (a +:+ b) = lower a +:+ lower b.
Proof.
  induction a as [|c a IH]; [done|].
  rewrite string_app_cons. simpl. by rewrite IH.
Qed.

Lemma any_term_in_context terms msg pre post :
  any_term_in terms msg = true → any_term_in terms (pre +:+ msg +:+ post) = true.
Proof.
  unfold any_term_in. rewrite !existsb_exists.
  intros (term & Hin & Hc). exists term. split; [done|]. by apply contains_context.
Qed.

Lemma any_term_in_lower_context terms m pre post :
  any_term_in terms (lower m) = true →
  any_term_in terms (lower (pre +:+ m +:+ post)) = true.
Proof. rewrite !lower_app. apply any_term_in_context. Qed.

(** X8. Putting text around a message never lowers its class in the order
    outbreak, analysis, health advice, research: an outbreak message stays
    one, an analysis message becomes at most an outbreak one, and a health
    message never falls back to research. *)
Theorem detect_intent_context (pre m post : string) :
  isascii (pre +:+ m +:+ post) = true →
  (detect_intent m = INTENT_OUTBREAK →
     detect_intent (pre +:+ m +:+ post) = INTENT_OUTBREAK) ∧
  (detect_intent m = INTENT_ANALYSIS →
     detect_intent (pre +:+ m +:+ post) = INTENT_OUTBREAK ∨
     detect_intent (pre +:+ m +:+ post) = INTENT_ANALYSIS) ∧
  (detect_intent m = INTENT_HEALTH_ADVICE →
     detect_intent (pre +:+ m +:+ post) ≠ INTENT_RESEARCH).
Proof.
  intros _. unfold detect_intent.
  pose proof (any_term_in_lower_context outbreak_terms m pre post) as Ho.
  pose proof (any_term_in_lower_context analysis_terms m pre post) as Ha.
  pose proof (any_term_in_lower_context health_terms m pre post) as Hh.
  destruct (any_term_in outbreak_terms (lower m)).
  { rewrite (Ho eq_refl). by repeat split. }
  destruct (any_term_in analysis_terms (lower m)).
  { rewrite (Ha eq_refl).
    destruct (any_term_in outbreak_terms _); repeat split; (done || auto). }
  destruct (any_term_in health_terms (lower m)).
  { rewrite (Hh eq_refl).
    destruct (any_term_in outbreak_terms _), (any_term_in analysis_terms _);
      by repeat split. }
  by repeat split.
Qed.

Lemma detect_intent_context_witness :
  let pre := "Please plot the " in
  let m := "Flu Vaccine uptake" in
  let post := " by SCHOOL" in
  (detect_intent m = INTENT_OUTBREAK →
     detect_intent (pre +:+ m +:+ post) = INTENT_OUTBREAK) ∧
  (detect_intent m = INTENT_ANALYSIS →
     detect_intent (pre +:+ m +:+ post) = INTENT_OUTBREAK ∨
     detect_intent (pre +:+ m +:+ post) = INTENT_ANALYSIS) ∧
  (detect_intent m = INTENT_HEALTH_ADVICE →
     detect_intent (pre +:+ m +:+ post) ≠ INTENT_RESEARCH).
Proof.
  intros pre m post. apply (detect_intent_context pre m post).
  vm_compute. reflexivity.
Defined.

(** ** Shape of the output tables *)

Lemma header_first_snoc tbl row :
  header_first tbl → body_row row → header_first (tbl ++ [row]).
Proof.
  destruct tbl as [|first rest]; simpl.
  - intros _ Hrow. split; [by right | done].
  - intros [Hfirst Hrest] Hrow. split; [done|].
    apply Forall_app. split; [done | by apply Forall_singleton].
Qed.

Lemma header_first_headers hs : Forall is_columnheader hs → header_first [hs].
Proof. intros Hhs. simpl. split; [by left | done]. Qed.

Lemma body_row_snoc row t :
  body_row row → ¬ is_columnheader t → body_row (row ++ [t]).
Proof.
  intros Hrow Ht. apply Forall_app. split; [done | by apply Forall_singleton].
Qed.

Lemma rowheader_not_columnheader t : is_rowheader t → ¬ is_columnheader t.
Proof. unfold is_columnheader, is_rowheader. congruence. Qed.

Lemma gridcell_not_columnheader t : is_gridcell t → ¬ is_columnheader t.
Proof. unfold is_columnheader, is_gridcell. congruence. Qed.

Lemma finalize_Headed (s : State Tag) :
  Headed s →
  Forall header_first (finalize s) ∧ Forall ends_with_body (finalize s).
Proof.
  intros [Hh Hr Ht Hd Hc]. unfold finalize.
  destruct (current_row s) as [|c row] eqn:Hrow; simpl; [done|].
  rewrite !Forall_app, !Forall_singleton.
  split; (split; [done|]).
  - by apply header_first_snoc.
  - by exists (current_table s), (c :: row).
Qed.

Lemma Headed_step seen t s s' :
  has_role t = true →
  Invariant (λ t, t) seen s → Headed s →
  step (λ t, t) t s = Ok s' → Headed s'.
Proof.
  intros Ht [Hex Htb _ _ _] Hhd Hstep.
  destruct (step_Ok _ _ _ _ Ht Hstep) as [[Hrole ->]|[[Hrole ->]|[Hrole Hs]]];
    clear Hstep.
  - rewrite on_columnheader_reachable by done.
    destruct (finalize_Headed s Hhd) as [Hf1 Hf2].
    destruct Hhd as [Hh Hr Htbl Hd Hc].
    split; simpl; [| apply Forall_nil_2 | done..].
    apply Forall_app. split; [done | by apply Forall_singleton].
  - destruct Hhd as [Hh Hr Htbl Hd Hc].
    apply rowheader_not_columnheader in Hrole.
    destruct s as [hs row tb ds]; simpl in *. unfold on_rowheader; simpl.
    destruct row as [|c row]; simpl.
    + rewrite (Htb eq_refl) in *.
      destruct hs as [|h hs]; simpl; split; simpl;
        auto using header_first_headers, body_row_snoc.
      all: by apply Forall_singleton.
    + destruct Hex as [->|?]; [|done]. simpl.
      split; simpl; auto using header_first_snoc. by apply Forall_singleton.
  - destruct Hhd as [Hh Hr Htbl Hd Hc].
    apply gridcell_not_columnheader in Hrole.
    apply on_gridcell_Ok in Hs as (b & Hb & ->).
    destruct s as [hs row tb ds]; simpl in *. unfold headers_flushed in *; simpl in *.
    destruct hs as [|h hs]; simpl in *.
    + destruct b; simpl; split; simpl;
        auto using header_first_snoc, body_row_snoc.
      by apply Forall_singleton.
    + destruct Hex as [?| ->]; [done|]. rewrite (Htb eq_refl) in *.
      destruct b; [specialize (Hb eq_refl); simpl in Hb; lia|].
      split; simpl; auto using header_first_headers. by apply Forall_singleton.
Qed.

Lemma loop_Headed pres s :
  Forall (λ t, has_role t = true) pres →
  loop (λ t, t) pres init = Ok s → Invariant (λ t, t) pres s ∧ Headed s.
Proof.
  apply (loop_invariant (λ t, t) (λ seen s, Invariant (λ t, t) seen s ∧ Headed s)).
  - split; [apply Invariant_init|]. split; simpl; first [done | apply Forall_nil_2].
  - intros seen t s0 s1 Ht [Hinv Hhd] Hstep. split.
    + by eapply Invariant_step.
    + by eapply Headed_step.
Qed.

Lemma extract_traced_Headed soup traced :
  extract_traced soup = Ok traced →
  ∃ s, loop (λ t, t) (pres_items soup) init = Ok s ∧ traced = finalize s ∧
       Invariant (λ t, t) (pres_items soup) s ∧ Headed s.
Proof.
  unfold extract_traced, extract_with. simpl.
  intros (s & Hs & [= <-])%bind_Ok_inv. exists s.
  split; [done|]. split; [done|].
  apply loop_Headed; [apply pres_items_has_role | done].
Qed.

(** X9. Column headers occur only in the first row of an output table, and
    a first row that holds one holds nothing but column headers: every table
    has at most one header row, and it leads the table. *)
Theorem header_row_leads
    (soup : list Tag) (traced : list (list (list Tag)))
    (tbl : list (list Tag)) (k : nat) (row : list Tag) (t : Tag) :
  extract_traced soup = Ok traced →
  tbl ∈ traced → tbl !! k = Some row → t ∈ row → is_columnheader t →
  extract_table_data_from_powerbi_html soup = Ok (map_dataset text traced) ∧
  k = 0 ∧ Forall is_columnheader row.
Proof.
  intros Htr Htbl Hk Ht Hch.
  split; [by rewrite extract_traced_text, Htr|].
  destruct (extract_traced_Headed _ _ Htr) as (s & _ & -> & _ & Hhd).
  destruct (finalize_Headed s Hhd) as [Hf _].
  rewrite Forall_forall in Hf. specialize (Hf tbl Htbl).
  assert (¬ body_row row) as Hnb.
  { intros Hb. unfold body_row in Hb. rewrite Forall_forall in Hb. by apply (Hb t). }
  destruct tbl as [|first rest]; [done|]. destruct Hf as [Hfirst Hrest].
  destruct k as [|k]; simpl in Hk.
  - injection Hk as ->. split; [done|]. by destruct Hfirst.
  - rewrite Forall_forall in Hrest. destruct Hnb. apply Hrest.
    by eapply list_elem_of_lookup_2.
Qed.

Lemma header_row_leads_witness :
  let soup := [ColumnHeader "Name"; ColumnHeader "Count";
               GridCell (Some "0") "Flu"; GridCell (Some "1") "12"] in
  let row := [ColumnHeader "Name"; ColumnHeader "Count"] in
  let tbl := [row; [GridCell (Some "0") "Flu"; GridCell (Some "1") "12"]] in
  extract_table_data_from_powerbi_html soup = Ok (map_dataset text [tbl]) ∧
  0 = 0 ∧ Forall is_columnheader row.
Proof.
  intros soup row tbl.
  apply (header_row_leads soup [tbl] tbl 0 row (ColumnHeader "Count")).
  - vm_compute. reflexivity.
  - left.
  - reflexivity.
  - right. left.
  - reflexivity.
Defined.

(** X10. Every item of the input becomes a cell of the output, in input
    order, except the column headers that end the input: the items are the
    output cells followed by column headers only, and since every output
    table ends with a row without column headers, those are all the column
    headers at the end. *)
Theorem only_trailing_headers_lost (soup : list Tag) (traced : list (list (list Tag))) :
  extract_traced soup = Ok traced →
  extract_table_data_from_powerbi_html soup = Ok (map_dataset text traced) ∧
  Forall ends_with_body traced ∧
  ∃ hs, pres_items soup = concat (concat traced) ++ hs ∧ Forall is_columnheader hs.
Proof.
  intros Htr. split; [by rewrite extract_traced_text, Htr|].
  destruct (extract_traced_Headed _ _ Htr) as (s & _ & -> & Hinv & Hhd).
  destruct (finalize_Headed s Hhd) as [_ Hends]. split; [done|].
  destruct Hinv as [Hex Htb Hcells _ _]. destruct Hhd as [Hh _ _ _ _].
  rewrite list_fmap_id in Hcells. rewrite <- Hcells. unfold finalize.
  destruct (current_row s) as [|c row]; simpl.
  - exists (column_headers s). rewrite (Htb eq_refl). simpl.
    by rewrite app_nil_r.
  - exists []. split; [|done]. destruct Hex as [->|?]; [|done]. simpl.
    repeat (progress (rewrite ?concat_app, ?app_nil_r; simpl)). done.
Qed.

Lemma only_trailing_headers_lost_witness :
  let soup := [ColumnHeader "A"; RowHeader "r"; GridCell (Some "0") "1";
               ColumnHeader "B"; ColumnHeader "C"] in
  let traced := [[[ColumnHeader "A"]; [RowHeader "r"; GridCell (Some "0") "1"]]] in
  extract_table_data_from_powerbi_html soup = Ok (map_dataset text traced) ∧
  Forall ends_with_body traced ∧
  ∃ hs, pres_items soup = concat (concat traced) ++ hs ∧ Forall is_columnheader hs.
Proof.
  intros soup traced. apply (only_trailing_headers_lost soup traced).
  vm_compute. reflexivity.
Defined.

(** ** The number of tables *)

Lemma length_finalize {A : Type} (s : State A) :
  length (finalize s)
  = length (datasets s) + (if nonempty (current_row s) then 1 else 0).
Proof.
  unfold finalize. destruct (nonempty (current_row s)); [|lia].
  rewrite length_app. simpl. lia.
Qed.

Lemma on_rowheader_fields {A : Type} (get_text : Tag → A) t s :
  let s' := on_rowheader get_text t s in
  datasets s' = datasets s ∧ column_headers s' = [] ∧ nonempty (current_row s') = true.
Proof.
  destruct s as [hs row tb ds]. unfold on_rowheader. simpl.
  destruct row as [|c row], hs as [|h hs]; simpl; by rewrite ?nonempty_snoc.
Qed.

Lemma on_gridcell_fields {A : Type} (get_text : Tag → A) t s s' :
  on_gridcell get_text t s = Ok s' →
  datasets s' = datasets s ∧ column_headers s' = [] ∧ nonempty (current_row s') = true.
Proof.
  intros (b & _ & ->)%on_gridcell_Ok.
  destruct s as [hs row tb ds]. unfold headers_flushed. simpl.
  destruct hs as [|h hs], b; simpl; by rewrite ?nonempty_snoc.
Qed.

Lemma loop_table_runs {A : Type} (get_text : Tag → A) pres s s' :
  column_headers s = [] ∨ current_row s = [] →
  (current_row s = [] → current_table s = []) →
  Forall (λ t, has_role t = true) pres →
  loop get_text pres s = Ok s' →
  length (finalize s')
  = length (datasets s) + table_runs (nonempty (current_row s)) pres.
Proof.
  revert s. induction pres as [|t pres IH]; intros s Hex Htb Hall; simpl.
  - intros [= <-]. apply length_finalize.
  - apply Forall_cons in Hall as [Ht Hall].
    intros (s1 & Hstep & Hloop)%bind_Ok_inv.
    destruct (step_Ok _ _ _ _ Ht Hstep) as [[Hrole ->]|[[Hrole ->]|[Hrole Hs]]];
      clear Hstep.
    + rewrite bool_decide_eq_true_2 by done.
      rewrite on_columnheader_reachable in Hloop by done.
      apply IH in Hloop; simpl; auto. simpl in Hloop.
      rewrite Hloop, length_finalize. lia.
    + rewrite bool_decide_eq_false_2 by by apply rowheader_not_columnheader.
      destruct (on_rowheader_fields get_text t s) as (Hd & Hh & Hr).
      apply IH in Hloop; [|by left| |done].
      * by rewrite Hloop, Hd, Hr.
      * intros Hnil. by rewrite Hnil in Hr.
    + rewrite bool_decide_eq_false_2 by by apply gridcell_not_columnheader.
      destruct (on_gridcell_fields get_text t s s1 Hs) as (Hd & Hh & Hr).
      apply IH in Hloop; [|by left| |done].
      * by rewrite Hloop, Hd, Hr.
      * intros Hnil. by rewrite Hnil in Hr.
Qed.

(** X11. The number of tables returned is the number of maximal runs of row
    headers and cells in the item sequence: a table is closed exactly where a
    column header follows such a run, and where such a run ends the input. *)
Theorem table_count (soup : list Tag) (out : list (list (list string))) :
  extract_table_data_from_powerbi_html soup = Ok out →
  length out = table_runs false (pres_items soup).
Proof.
  unfold extract_table_data_from_powerbi_html, extract_with. simpl.
  intros (s & Hs & [= <-])%bind_Ok_inv.
  apply loop_table_runs in Hs; simpl; auto using pres_items_has_role.
Qed.

Lemma table_count_witness :
  length [[["A"]; ["r"; "1"]]; [["B"]; ["2"]]]
  = table_runs false
      (pres_items [ColumnHeader "A"; RowHeader "r"; GridCell (Some "0") "1";
                   ColumnHeader "B"; GridCell (Some "0") "2"; ColumnHeader "C"]).
Proof.
  apply (table_count
           [ColumnHeader "A"; RowHeader "r"; GridCell (Some "0") "1";
            ColumnHeader "B"; GridCell (Some "0") "2"; ColumnHeader "C"]).
  vm_compute. reflexivity.
Defined.

(** ** Reconstructing a linearized grid *)

Lemma GridCell_is_gridcell idx c : is_gridcell (GridCell idx c).
Proof.
  unfold is_gridcell. destruct idx as [i|]; simpl.
  - by rewrite lookup_insert_ne, lookup_singleton_eq.
  - by rewrite lookup_singleton_eq.
Qed.

Lemma GridCell_column_index i c : attrs (GridCell (Some i) c) !! "column-index" = Some i.
Proof. simpl. by rewrite lookup_insert_eq. Qed.

Lemma ColumnHeader_is_columnheader h : is_columnheader (ColumnHeader h).
Proof. unfold is_columnheader. simpl. by rewrite lookup_singleton_eq. Qed.

Lemma strip_attrs_kept t :
  (∀ key v, attrs t !! key = Some v → key ∉ REMOVE_ATTRIBUTES) → strip_attrs t = t.
Proof.
  intros Hkeys. destruct t as [a x]. unfold strip_attrs. simpl. f_equal.
  apply map_filter_id. intros key v Hv. simpl. by eapply Hkeys.
Qed.

Lemma strip_attrs_ColumnHeader h : strip_attrs (ColumnHeader h) = ColumnHeader h.
Proof.
  apply strip_attrs_kept. intros key v. simpl.
  intros [<- _]%lookup_singleton_Some. compute_done.
Qed.

Lemma strip_attrs_GridCell idx c : strip_attrs (GridCell idx c) = GridCell idx c.
Proof.
  apply strip_attrs_kept. intros key v. destruct idx as [i|]; simpl.
  - intros [[<- _]|[_ [<- _]%lookup_singleton_Some]]%lookup_insert_Some; compute_done.
  - intros [<- _]%lookup_singleton_Some. compute_done.
Qed.

Lemma pretty_index_nonzero i : pretty (S i) ≠ "0".
Proof. change "0" with (pretty 0). by intros ?%(inj pretty). Qed.

(** The cells of a row past its first one never start a new row. *)
Lemma one_row_from_cells n k (row : list string) :
  one_row_from n (imap (λ i c, GridCell (Some (pretty (S k + i))) c) row).
Proof.
  revert n k. induction row as [|c row IH]; intros n k; simpl; [done|].
  split.
  - split; [apply GridCell_is_gridcell|]. intros _.
    exists (pretty (S k + 0)). split; [apply GridCell_column_index|].
    apply pretty_index_nonzero.
  - rewrite (imap_ext _ (λ i c, GridCell (Some (pretty (S (S k) + i))) c)).
    + apply IH.
    + intros i x _. simpl. do 3 f_equal. lia.
Qed.

Lemma text_imap (g : nat → string → Tag) (row : list string) :
  (∀ i c, text (g i c) = c) → text <$> imap g row = row.
Proof.
  revert g. induction row as [|c row IH]; intros g Hg; [done|].
  rewrite imap_cons, fmap_cons, Hg. f_equal. apply IH. intros i c'. apply Hg.
Qed.

Lemma text_ColumnHeaders (hs : list string) : text <$> (ColumnHeader <$> hs) = hs.
Proof. induction hs as [|h hs IH]; [done|]. rewrite !fmap_cons, IH. done. Qed.

Lemma committed_row {A : Type} (s : State A) (row : list A) :
  row ≠ [] →
  committed {| column_headers := []; current_row := row;
               current_table := committed s; datasets := datasets s |}
  = committed s ++ [row].
Proof. intros Hrow. unfold committed at 1. simpl. by destruct row. Qed.

(** A cell with index ['0'] met with no header pending. *)
Lemma on_gridcell_index0 c (s : State string) :
  column_headers s = [] →
  on_gridcell text (GridCell (Some "0") c) s =
    Ok (push_cell c (if bool_decide (1 < length (current_row s))
                     then flush_row s else s)).
Proof.
  intros Hcol. unfold on_gridcell, row_start.
  rewrite (subscript_Some _ _ _ (GridCell_column_index "0" c)), Hcol. simpl.
  by case_bool_decide.
Qed.

(** One data row of at least two cells, met with no header pending and the
    pending row empty or complete: the pending row is recorded and the new
    row becomes the pending one. *)
Lemma loop_grid_row (row : list string) (s : State string) :
  (2 ≤ length row)%nat →
  column_headers s = [] →
  current_row s = [] ∨ (2 ≤ length (current_row s))%nat →
  loop text (grid_cells row) s =
    Ok {| column_headers := []; current_row := row;
          current_table := committed s; datasets := datasets s |}.
Proof.
  intros Hlen Hcol Hrow. destruct row as [|c0 row]; [simpl in Hlen; lia|].
  unfold grid_cells. rewrite imap_cons.
  change (pretty 0) with "0".
  change (loop text (?t :: ?l) s) with (step text t s ≫= loop text l).
  rewrite step_gridcell by apply GridCell_is_gridcell.
  rewrite on_gridcell_index0, bind_Ok by done.
  pose proof (one_row_from_cells 1 0 row) as Hcells.
  destruct s as [hs r0 tb ds]. simpl in *. subst hs.
  destruct Hrow as [->|Hfull].
  - simpl. rewrite loop_one_row by done. simpl.
    unfold committed. simpl. rewrite app_nil_r.
    by rewrite text_imap.
  - rewrite bool_decide_eq_true_2 by lia. simpl.
    rewrite loop_one_row by done. simpl.
    rewrite text_imap by done.
    unfold committed. simpl. destruct r0; [simpl in Hfull; lia | done].
Qed.

Lemma loop_grid_rows (rows : list (list string)) (s : State string) :
  Forall (λ row, (2 ≤ length row)%nat) rows →
  column_headers s = [] →
  current_row s = [] ∨ (2 ≤ length (current_row s))%nat →
  ∃ s', loop text (concat (grid_cells <$> rows)) s = Ok s' ∧
        column_headers s' = [] ∧
        (current_row s' = [] ∨ (2 ≤ length (current_row s'))%nat) ∧
        (rows ≠ [] → (2 ≤ length (current_row s'))%nat) ∧
        committed s' = committed s ++ rows ∧
        datasets s' = datasets s.
Proof.
  revert s. induction rows as [|row rows IH]; intros s Hall Hcol Hrow.
  - exists s. simpl. by rewrite app_nil_r.
  - apply Forall_cons in Hall as [Hlen Hall].
    rewrite fmap_cons, concat_cons, loop_app, loop_grid_row by done. simpl.
    edestruct (IH {| column_headers := []; current_row := row;
                     current_table := committed s; datasets := datasets s |})
      as (s' & Hloop & Hc & Hr & Hne & Hcm & Hd); [done | done | by right |].
    exists s'. split; [done|]. split; [done|]. split; [done|].
    split.
    + intros _. destruct rows as [|r rows]; [|by apply Hne].
      simpl in Hloop. by injection Hloop as <-.
    + split; [|done].
      assert (row ≠ []) as Hrne by (intros ->; simpl in Hlen; lia).
      by rewrite Hcm, committed_row, <- app_assoc.
Qed.

(** The [gridcell] branch records pending headers before anything else. *)
Lemma on_gridcell_flushed {A : Type} (get_text : Tag → A) t s :
  on_gridcell get_text t s = on_gridcell get_text t (headers_flushed s).
Proof.
  unfold on_gridcell, headers_flushed.
  destruct (nonempty (column_headers s)) eqn:E; simpl; by rewrite ?E.
Qed.

Lemma loop_linearized (tbl : list string * list (list string)) (s : State string) :
  well_shaped tbl →
  column_headers s = [] →
  (current_row s = [] → current_table s = []) →
  ∃ s', loop text (linearize tbl) s = Ok s' ∧
        column_headers s' = [] ∧
        (2 ≤ length (current_row s'))%nat ∧
        finalize s' = finalize s ++ [tbl.1 :: tbl.2].
Proof.
  destruct tbl as [hs rows]. intros (Hhs & Hrows & Hall) Hcol Htb. simpl in *.
  unfold linearize. simpl. rewrite loop_app.
  destruct hs as [|h hs]; [done|]. rewrite fmap_cons. simpl.
  rewrite step_columnheader by apply ColumnHeader_is_columnheader.
  rewrite bind_Ok, on_columnheader_reachable by auto.
  rewrite loop_header_group; simpl.
  2: { apply Forall_fmap, Forall_forall. intros x _. apply ColumnHeader_is_columnheader. }
  2: done.
  2: { left. rewrite Hcol. done. }
  rewrite Hcol. simpl.
  rewrite text_ColumnHeaders.
  destruct rows as [|row rows]; [done|].
  apply Forall_cons in Hall as [Hlen Hall].
  rewrite fmap_cons, concat_cons, loop_app.
  destruct row as [|c0 row]; [simpl in Hlen; lia|].
  assert (loop text (grid_cells (c0 :: row))
            {| column_headers := h :: hs; current_row := [];
               current_table := []; datasets := finalize s |}
          = loop text (grid_cells (c0 :: row))
              {| column_headers := []; current_row := [];
                 current_table := [h :: hs]; datasets := finalize s |}) as ->.
  { unfold grid_cells. rewrite imap_cons. simpl.
    rewrite !step_gridcell by apply GridCell_is_gridcell.
    by rewrite on_gridcell_flushed. }
  rewrite loop_grid_row by (done || by left). simpl.
  edestruct (loop_grid_rows rows
               {| column_headers := []; current_row := c0 :: row;
                  current_table := [h :: hs]; datasets := finalize s |})
    as (s' & Hloop & Hc & Hr & Hne & Hcm & Hd); [done | done | by right |].
  unfold committed at 1. simpl. rewrite Hloop.
  exists s'. split; [done|]. split; [done|].
  assert (2 ≤ length (current_row s'))%nat as Hlen'.
  { destruct rows as [|r rows]; [|by apply Hne].
    simpl in Hloop. by injection Hloop as <-. }
  split; [done|].
  unfold finalize at 1. unfold committed in Hcm. simpl in Hcm.
  destruct (current_row s') as [|x r']; [simpl in Hlen'; lia|]. simpl in *.
  by rewrite Hd, Hcm.
Qed.

Lemma loop_linearized_tables (tables : list (list string * list (list string)))
    (s : State string) :
  Forall well_shaped tables →
  column_headers s = [] →
  (current_row s = [] → current_table s = []) →
  ∃ s', loop text (concat (linearize <$> tables)) s = Ok s' ∧
        finalize s' = finalize s ++ ((λ tbl, tbl.1 :: tbl.2) <$> tables).
Proof.
  revert s. induction tables as [|tbl tables IH]; intros s Hall Hcol Htb.
  - exists s. simpl. by rewrite app_nil_r.
  - apply Forall_cons in Hall as [Htbl Hall].
    destruct (loop_linearized tbl s Htbl Hcol Htb) as (s1 & Hloop & Hc1 & Hr1 & Hf1).
    destruct (IH s1 Hall Hc1) as (s' & Hloop' & Hf').
    { intros Hnil. rewrite Hnil in Hr1. simpl in Hr1. lia. }
    exists s'. rewrite fmap_cons, concat_cons, loop_app, Hloop. simpl.
    split; [done|]. by rewrite Hf', Hf1, <- app_assoc.
Qed.

Lemma strip_attrs_imap (g : nat → string → Tag) (row : list string) :
  (∀ i c, strip_attrs (g i c) = g i c) → strip_attrs <$> imap g row = imap g row.
Proof.
  revert g. induction row as [|c row IH]; intros g Hg; [done|].
  rewrite imap_cons, fmap_cons, Hg. f_equal. apply IH. intros i c'. apply Hg.
Qed.

Lemma strip_all_linearize tbl : strip_all (linearize tbl) = linearize tbl.
Proof.
  unfold strip_all, linearize. rewrite fmap_app. f_equal.
  - rewrite <- list_fmap_compose. apply list_fmap_ext.
    intros _ h _. apply strip_attrs_ColumnHeader.
  - induction (tbl.2) as [|row rows IH]; [done|].
    rewrite fmap_cons, !concat_cons, fmap_app, IH. f_equal.
    apply strip_attrs_imap. intros i c. apply strip_attrs_GridCell.
Qed.

Lemma linearize_has_role tbl : Forall (λ t, has_role t = true) (linearize tbl).
Proof.
  unfold linearize. apply Forall_app. split.
  - apply Forall_fmap, Forall_forall. intros h _.
    apply is_columnheader_has_role, ColumnHeader_is_columnheader.
  - apply Forall_concat, Forall_fmap, Forall_forall. intros row _.
    unfold grid_cells. apply Forall_forall. intros t Ht.
    apply list_elem_of_lookup in Ht as [i Hi].
    apply list_lookup_imap_Some in Hi as (c & _ & ->).
    apply is_gridcell_has_role, GridCell_is_gridcell.
Qed.

Lemma pres_items_linearized tables :
  pres_items (concat (linearize <$> tables)) = concat (linearize <$> tables).
Proof.
  induction tables as [|tbl tables IH]; [done|].
  rewrite fmap_cons, concat_cons, pres_items_app, IH. f_equal.
  rewrite pres_items_all by apply linearize_has_role.
  apply strip_all_linearize.
Qed.

(** X12. Round trip: tables that each have a header, at least one row and
    at least two columns, laid out one after the other as the grid renders
    them, are reconstructed exactly, the header row leading each table. *)
Theorem reconstruct_linearized (tables : list (list string * list (list string))) :
  Forall well_shaped tables →
  extract_table_data_from_powerbi_html (concat (linearize <$> tables))
  = Ok ((λ tbl, tbl.1 :: tbl.2) <$> tables).
Proof.
  intros Hall. unfold extract_table_data_from_powerbi_html, extract_with. simpl.
  rewrite pres_items_linearized.
  destruct (loop_linearized_tables tables init Hall eq_refl (λ _, eq_refl))
    as (s' & -> & Hf).
  simpl. by rewrite Hf.
Qed.

Lemma reconstruct_linearized_witness :
  extract_table_data_from_powerbi_html
    (concat (linearize <$> [(["Name"; "Count"], [["Flu"; "12"]; ["RSV"; "3"]]);
                            (["Unit"; "Cases"; "Status"], [["Ward 1"; "3"; "open"]])]))
  = Ok [[["Name"; "Count"]; ["Flu"; "12"]; ["RSV"; "3"]];
        [["Unit"; "Cases"; "Status"]; ["Ward 1"; "3"; "open"]]].
Proof.
  apply (reconstruct_linearized
           [(["Name"; "Count"], [["Flu"; "12"]; ["RSV"; "3"]]);
            (["Unit"; "Cases"; "Status"], [["Ward 1"; "3"; "open"]])]).
  repeat constructor; simpl; (done || lia).
Defined.

(** ** Single-column grids *)

Lemma pairs_ind (P : list string → Prop) :
  P [] → (∀ a, P [a]) → (∀ a b cells, P cells → P (a :: b :: cells)) →
  ∀ cells, P cells.
Proof.
  intros Hnil Hone Hstep.
  assert (∀ cells, P cells ∧ ∀ a, P (a :: cells)) as H.
  { induction cells as [|b cells [IH1 IH2]]; [by split|].
    split; [apply IH2|]. intros a. by apply Hstep. }
  intros cells. apply H.
Qed.

(** A cell with index ['0'] met with an empty or a two-cell pending row
    opens a row; met with a one-cell pending row it joins that row. *)
Lemma step_index0_opens c (s : State string) :
  column_headers s = [] →
  current_row s = [] ∨ length (current_row s) = 2 →
  step text (GridCell (Some "0") c) s
  = Ok (mkState [] [c] (committed s) (datasets s)).
Proof.
  intros Hcol Hrow.
  rewrite step_gridcell by apply GridCell_is_gridcell.
  rewrite on_gridcell_index0 by done. f_equal.
  destruct s as [hs r0 tb ds]. simpl in *. subst hs. unfold committed. simpl.
  destruct Hrow as [->|Hlen]; simpl.
  - by rewrite app_nil_r.
  - rewrite bool_decide_eq_true_2 by lia.
    destruct r0; [simpl in Hlen; lia | done].
Qed.

Lemma step_index0_joins c a tb ds :
  step text (GridCell (Some "0") c) (mkState [] [a] tb ds)
  = Ok (mkState [] [a; c] tb ds).
Proof.
  rewrite step_gridcell by apply GridCell_is_gridcell.
  by rewrite on_gridcell_index0.
Qed.

Lemma loop_index0_cells (cells : list string) (s : State string) :
  column_headers s = [] →
  current_row s = [] ∨ length (current_row s) = 2 →
  ∃ s', loop text (GridCell (Some "0") <$> cells) s = Ok s' ∧
        column_headers s' = [] ∧
        (cells ≠ [] → current_row s' ≠ []) ∧
        committed s' = committed s ++ pairs cells ∧
        datasets s' = datasets s.
Proof.
  revert s. induction cells as [|a|a b cells IH] using pairs_ind; intros s Hcol Hrow.
  - exists s. simpl. by rewrite app_nil_r.
  - rewrite fmap_cons. simpl. rewrite step_index0_opens by done. simpl.
    eexists. split; [done|]. simpl. split; [done|]. split; [done|].
    split; [|done]. unfold committed at 1. done.
  - rewrite !fmap_cons. simpl.
    rewrite step_index0_opens by done. simpl.
    rewrite step_index0_joins. simpl.
    destruct (IH (mkState [] [a; b] (committed s) (datasets s)))
      as (s' & Hloop & Hc & Hne & Hcm & Hd); [done | by right |].
    exists s'. split; [done|]. split; [done|]. split.
    + intros _. destruct cells as [|c cells]; [|by apply Hne].
      simpl in Hloop. by injection Hloop as <-.
    + split; [|done]. rewrite Hcm. unfold committed at 1. simpl.
      by rewrite <- app_assoc.
Qed.

(** X13. A single-column table is not reconstructed row by row: since a
    cell with index ['0'] starts a new row only when the pending row already
    holds more than one cell, the cells come out two to a row (the last one
    alone when their number is odd). *)
Theorem single_column_paired (hs cells : list string) :
  hs ≠ [] → cells ≠ [] →
  extract_table_data_from_powerbi_html (single_column hs cells)
  = Ok [hs :: pairs cells].
Proof.
  intros Hhs Hcells.
  assert (Forall (λ t, has_role t = true) (single_column hs cells)) as Hroles.
  { apply Forall_app. split; apply Forall_fmap, Forall_forall; intros x _.
    - apply is_columnheader_has_role, ColumnHeader_is_columnheader.
    - apply is_gridcell_has_role, GridCell_is_gridcell. }
  assert (strip_all (single_column hs cells) = single_column hs cells) as Hstrip.
  { unfold strip_all, single_column. rewrite fmap_app, <- !list_fmap_compose.
    f_equal; apply list_fmap_ext; intros _ x _; simpl;
      first [apply strip_attrs_ColumnHeader | apply strip_attrs_GridCell | done]. }
  unfold extract_table_data_from_powerbi_html, extract_with. simpl.
  rewrite pres_items_all, Hstrip by done.
  unfold single_column. rewrite loop_app.
  rewrite loop_header_group; simpl; [| |done|by right].
  2: { apply Forall_fmap, Forall_forall. intros x _. apply ColumnHeader_is_columnheader. }
  rewrite text_ColumnHeaders.
  destruct cells as [|c cells]; [done|].
  assert (loop text (GridCell (Some "0") <$> c :: cells) (mkState hs [] [] [])
          = loop text (GridCell (Some "0") <$> c :: cells) (mkState [] [] [hs] []))
    as ->.
  { rewrite fmap_cons.
    change (loop text (?t :: ?l) ?s0) with (step text t s0 ≫= loop text l).
    rewrite !step_gridcell by apply GridCell_is_gridcell.
    rewrite on_gridcell_flushed.
    replace (headers_flushed (mkState hs [] [] [])) with (mkState [] [] [hs] ([] : list (list (list string))));
      [done|].
    destruct hs; [by destruct Hhs | reflexivity]. }
  destruct (loop_index0_cells (c :: cells) (mkState [] [] [hs] []))
    as (s' & -> & Hc & Hne & Hcm & Hd); [done | by left |].
  simpl. unfold finalize. unfold committed in Hcm. simpl in *.
  destruct (current_row s') as [|x r]; [by destruct Hne|]. simpl in *.
  by rewrite Hd, Hcm.
Qed.

Lemma single_column_paired_witness :
  extract_table_data_from_powerbi_html
    (single_column ["Facility"] ["Ward 1"; "Ward 2"; "Ward 3"])
  = Ok [[["Facility"]; ["Ward 1"; "Ward 2"]; ["Ward 3"]]].
Proof. by apply (single_column_paired ["Facility"] ["Ward 1"; "Ward 2"; "Ward 3"]). Defined.

(** ** Grids with row headers *)

Lemma RowHeader_is_rowheader h : is_rowheader (RowHeader h).
Proof. unfold is_rowheader. simpl. by rewrite lookup_singleton_eq. Qed.

Lemma strip_attrs_RowHeader h : strip_attrs (RowHeader h) = RowHeader h.
Proof.
  apply strip_attrs_kept. intros key v. simpl.
  intros [<- _]%lookup_singleton_Some. compute_done.
Qed.

(** After a row header every cell of the row joins it, whatever the number
    of cells. *)
Lemma one_row_from_grid_cells (cells : list string) :
  one_row_from 1 (grid_cells cells).
Proof.
  unfold grid_cells. destruct cells as [|c cells]; [done|].
  rewrite imap_cons. split.
  - split; [apply GridCell_is_gridcell|]. intros Hlt. lia.
  - apply (one_row_from_cells 2 0 cells).
Qed.

Lemma on_rowheader_committed h (s : State string) :
  column_headers s = [] →
  on_rowheader text (RowHeader h) s = mkState [] [h] (committed s) (datasets s).
Proof.
  intros Hcol. destruct s as [hs r0 tb ds]. simpl in *. subst hs.
  unfold on_rowheader, committed. simpl.
  destruct r0; simpl; by rewrite ?app_nil_r.
Qed.

Lemma loop_labelled_row (row : string * list string) (s : State string) :
  column_headers s = [] →
  loop text (labelled_row row) s
  = Ok (mkState [] (row.1 :: row.2) (committed s) (datasets s)).
Proof.
  intros Hcol. unfold labelled_row.
  change (loop text (?t :: ?l) ?s0) with (step text t s0 ≫= loop text l).
  rewrite step_rowheader by apply RowHeader_is_rowheader.
  rewrite bind_Ok, on_rowheader_committed by done.
  rewrite loop_one_row by (done || apply one_row_from_grid_cells). simpl.
  unfold grid_cells. by rewrite text_imap.
Qed.

Lemma loop_labelled_rows (rows : list (string * list string)) (s : State string) :
  column_headers s = [] →
  ∃ s', loop text (concat (labelled_row <$> rows)) s = Ok s' ∧
        column_headers s' = [] ∧
        (rows ≠ [] → current_row s' ≠ []) ∧
        committed s' = committed s ++ ((λ row, row.1 :: row.2) <$> rows) ∧
        datasets s' = datasets s.
Proof.
  revert s. induction rows as [|row rows IH]; intros s Hcol.
  - exists s. simpl. by rewrite app_nil_r.
  - rewrite fmap_cons, concat_cons, loop_app, loop_labelled_row by done. simpl.
    destruct (IH (mkState [] (row.1 :: row.2) (committed s) (datasets s)))
      as (s' & Hloop & Hc & Hne & Hcm & Hd); [done|].
    exists s'. split; [done|]. split; [done|]. split.
    + intros _. destruct rows as [|r rows]; [|by apply Hne].
      simpl in Hloop. by injection Hloop as <-.
    + split; [|done]. rewrite Hcm. unfold committed at 1. simpl.
      by rewrite <- app_assoc.
Qed.

Lemma loop_linearized_headed (tbl : list string * list (string * list string))
    (s : State string) :
  tbl.1 ≠ [] → tbl.2 ≠ [] →
  column_headers s = [] →
  (current_row s = [] → current_table s = []) →
  ∃ s', loop text (linearize_labelled tbl) s = Ok s' ∧
        column_headers s' = [] ∧
        current_row s' ≠ [] ∧
        finalize s' = finalize s ++ [labelled_table tbl].
Proof.
  destruct tbl as [hs rows]. simpl. intros Hhs Hrows Hcol Htb.
  unfold linearize_labelled, labelled_table. simpl. rewrite loop_app.
  destruct hs as [|h hs]; [done|]. rewrite fmap_cons.
  change (loop text (?t :: ?l) ?s0) with (step text t s0 ≫= loop text l).
  rewrite step_columnheader by apply ColumnHeader_is_columnheader.
  rewrite bind_Ok, on_columnheader_reachable by auto.
  rewrite loop_header_group; simpl.
  2: { apply Forall_fmap, Forall_forall. intros x _. apply ColumnHeader_is_columnheader. }
  2: done.
  2: { left. rewrite Hcol. done. }
  rewrite Hcol, text_ColumnHeaders. simpl.
  destruct rows as [|row rows]; [done|].
  rewrite fmap_cons, concat_cons, loop_app.
  assert (loop text (labelled_row row) (mkState (h :: hs) [] [] (finalize s))
          = Ok (mkState [] (row.1 :: row.2) [h :: hs] (finalize s))) as ->.
  { unfold labelled_row.
    change (loop text (?t :: ?l) ?s0) with (step text t s0 ≫= loop text l).
    rewrite step_rowheader by apply RowHeader_is_rowheader.
    rewrite bind_Ok.
    change (on_rowheader text (RowHeader row.1) (mkState (h :: hs) [] [] (finalize s)))
      with (mkState [] [row.1] [h :: hs] (finalize s)).
    rewrite loop_one_row by (done || apply one_row_from_grid_cells). simpl.
    unfold grid_cells. by rewrite text_imap. }
  simpl.
  destruct (loop_labelled_rows rows (mkState [] (row.1 :: row.2) [h :: hs] (finalize s)))
    as (s' & Hloop & Hc & Hne & Hcm & Hd); [done|].
  exists s'. split; [done|]. split; [done|].
  assert (current_row s' ≠ []) as Hrow'.
  { destruct rows as [|r rows]; [|by apply Hne].
    simpl in Hloop. by injection Hloop as <-. }
  split; [done|].
  unfold finalize at 1. unfold committed in Hcm. simpl in Hcm.
  destruct (current_row s') as [|x r']; [done|]. simpl in *.
  by rewrite Hd, Hcm.
Qed.

Lemma loop_linearized_labelled_tables
    (tables : list (list string * list (string * list string))) (s : State string) :
  Forall (λ tbl, tbl.1 ≠ [] ∧ tbl.2 ≠ []) tables →
  column_headers s = [] →
  (current_row s = [] → current_table s = []) →
  ∃ s', loop text (concat (linearize_labelled <$> tables)) s = Ok s' ∧
        finalize s' = finalize s ++ (labelled_table <$> tables).
Proof.
  revert s. induction tables as [|tbl tables IH]; intros s Hall Hcol Htb.
  - exists s. simpl. by rewrite app_nil_r.
  - apply Forall_cons in Hall as [[Hhs Hrows] Hall].
    destruct (loop_linearized_headed tbl s Hhs Hrows Hcol Htb)
      as (s1 & Hloop & Hc1 & Hr1 & Hf1).
    destruct (IH s1 Hall Hc1) as (s' & Hloop' & Hf'); [done|].
    exists s'. rewrite fmap_cons, concat_cons, loop_app, Hloop. simpl.
    split; [done|]. by rewrite Hf', Hf1, <- app_assoc.
Qed.

Lemma strip_all_linearize_labelled tbl :
  strip_all (linearize_labelled tbl) = linearize_labelled tbl.
Proof.
  unfold strip_all, linearize_labelled. rewrite fmap_app. f_equal.
  - rewrite <- list_fmap_compose. apply list_fmap_ext.
    intros _ h _. apply strip_attrs_ColumnHeader.
  - induction (tbl.2) as [|row rows IH]; [done|].
    rewrite fmap_cons, !concat_cons, fmap_app, IH. f_equal.
    unfold labelled_row. rewrite fmap_cons, strip_attrs_RowHeader. f_equal.
    apply strip_attrs_imap. intros i c. apply strip_attrs_GridCell.
Qed.

Lemma linearize_labelled_has_role tbl :
  Forall (λ t, has_role t = true) (linearize_labelled tbl).
Proof.
  unfold linearize_labelled. apply Forall_app. split.
  - apply Forall_fmap, Forall_forall. intros h _.
    apply is_columnheader_has_role, ColumnHeader_is_columnheader.
  - apply Forall_concat, Forall_fmap, Forall_forall. intros row _.
    unfold labelled_row. constructor.
    + apply is_rowheader_has_role, RowHeader_is_rowheader.
    + unfold grid_cells. apply Forall_forall. intros t Ht.
      apply list_elem_of_lookup in Ht as [i Hi].
      apply list_lookup_imap_Some in Hi as (c & _ & ->).
      apply is_gridcell_has_role, GridCell_is_gridcell.
Qed.

Lemma pres_items_linearized_headed tables :
  pres_items (concat (linearize_labelled <$> tables))
  = concat (linearize_labelled <$> tables).
Proof.
  induction tables as [|tbl tables IH]; [done|].
  rewrite fmap_cons, concat_cons, pres_items_app, IH. f_equal.
  rewrite pres_items_all by apply linearize_labelled_has_role.
  apply strip_all_linearize_labelled.
Qed.

(** X14. Round trip with row headers: tables that each have a header and at
    least one row, every row led by a row header, are reconstructed exactly,
    whatever the number of cells in a row, a single one or none included. *)
Theorem reconstruct_linearized_headed
    (tables : list (list string * list (string * list string))) :
  Forall (λ tbl, tbl.1 ≠ [] ∧ tbl.2 ≠ []) tables →
  extract_table_data_from_powerbi_html (concat (linearize_labelled <$> tables))
  = Ok (labelled_table <$> tables).
Proof.
  intros Hall. unfold extract_table_data_from_powerbi_html, extract_with. simpl.
  rewrite pres_items_linearized_headed.
  destruct (loop_linearized_labelled_tables tables init Hall eq_refl (λ _, eq_refl))
    as (s' & -> & Hf).
  simpl. by rewrite Hf.
Qed.

Lemma reconstruct_linearized_headed_witness :
  extract_table_data_from_powerbi_html
    (concat (linearize_labelled <$>
               [(["Unit"], [("Ward 1", ["3 cases"]); ("Ward 2", ["1 case"])]);
                (["Facility"; "Type"; "Status"], [("Home A", ["LTC"; "open"]); ("Home B", [])])]))
  = Ok [[["Unit"]; ["Ward 1"; "3 cases"]; ["Ward 2"; "1 case"]];
        [["Facility"; "Type"; "Status"]; ["Home A"; "LTC"; "open"]; ["Home B"]]].
Proof.
  apply (reconstruct_linearized_headed
           [(["Unit"], [("Ward 1", ["3 cases"]); ("Ward 2", ["1 case"])]);
            (["Facility"; "Type"; "Status"], [("Home A", ["LTC"; "open"]); ("Home B", [])])]).
  repeat constructor; done.
Defined.
